(** * ThreeNNVectorPoolByTwoStep.forward: the capacity-retry gather loop and
      the three-nearest-neighbour refinement

    A shallow embedding of [mmcv/ops/ThreeNNForVectorPoolByTwoStep.py].
    The Python function is an orchestrator around two kernels of the
    compiled extension [_ext]; the orchestration (allocation, the
    [while True] retry loop, the estimate arithmetic, the slice and the
    final square root) is embedded from the source, the two kernels are the
    methods of a class [ExtModule]. *)

From Stdlib Require Import ZArith List Bool Lia.
From Stdlib Require Import Floats.SpecFloat.
From stdpp Require Import base tactics list.

Local Open Scope Z_scope.

(** ** Python integers and exceptions *)

Inductive PyError : Type :=
| IndexError          (* tuple index out of range: [shape[0]] of a 0-d tensor *)
| RuntimeError        (* torch: a negative dimension, or no memory for the tensor *)
| TypeError           (* torch: a size that is no 64-bit integer *)
| ZeroDivisionError.  (* [//] or [%] by zero *)

(** [a // b] on Python ints: floor division, [ZeroDivisionError] on [b = 0].
    [Z.div] rounds towards minus infinity as Python does. *)
Definition py_floordiv (a b : Z) : PyError + Z :=
  if b =? 0 then inl ZeroDivisionError else inr (a / b).

(** [a % b] on Python ints: the remainder has the sign of [b], as [Z.modulo]. *)
Definition py_mod (a b : Z) : PyError + Z :=
  if b =? 0 then inl ZeroDivisionError else inr (a mod b).

(** [int(b)] of a Python bool. *)
Definition py_int_of_bool (b : bool) : Z := if b then 1 else 0.

(** [c // n + int(c % n > 0)] (lines 75-76 of [forward]). *)
Definition new_estimate (c n : Z) : PyError + Z :=
  match py_floordiv c n with
  | inl e => inl e
  | inr q =>
      match py_mod c n with
      | inl e => inl e
      | inr r => inr (q + py_int_of_bool (0 <? r))
      end
  end.

(** The value an int32 holds when [z] is stored in it: [z] modulo [2^32],
    in [[-2^31, 2^31)]. *)
Definition wrap_int32 (z : Z) : Z := (z + 2 ^ 31) mod 2 ^ 32 - 2 ^ 31.

(** [t <= k] for an element [t] of an int32 tensor and a Python int [k]
    (line 78): the comparison is made in the dtype of the tensor, with [k]
    cast to int32; the cast keeps the low 32 bits. *)
Definition tensor_le (t k : Z) : bool := t <=? wrap_int32 k.

(** [l[:k]] on a sequence: a negative bound counts from the end, and bounds
    are clipped to the sequence. *)
Definition py_slice_to {A : Type} (l : list A) (k : Z) : list A :=
  if k <? 0 then take (Z.to_nat (Z.of_nat (length l) + k)) l
  else take (Z.to_nat k) l.

(** ** Floating point

    Tensor elements are IEEE-754 binary floats of the tensor's dtype, given
    by the precision and the exponent bound; Python's own [float] is
    binary64. *)

Definition float : Type := spec_float.

Class Dtype : Type := { dt_prec : Z; dt_emax : Z }.

Definition float32 : Dtype := {| dt_prec := 24; dt_emax := 128 |}.
Definition float64 : Dtype := {| dt_prec := 53; dt_emax := 1024 |}.

Definition fzero : float := S754_zero false.

Definition fsqrt `{Dtype} (x : float) : float := SFsqrt dt_prec dt_emax x.
Definition fadd `{Dtype} (x y : float) : float := SFadd dt_prec dt_emax x y.
Definition fsub `{Dtype} (x y : float) : float := SFsub dt_prec dt_emax x y.
Definition fmul `{Dtype} (x y : float) : float := SFmul dt_prec dt_emax x y.

(** [x * y] on Python floats. *)
Definition py_float_mul (x y : float) : float := SFmul 53 1024 x y.

(** A float of any format rounded into the dtype (a Python [float] handed
    to a kernel that works in the tensor's dtype). *)
Definition fcast `{Dtype} (x : float) : float := SFldexp dt_prec dt_emax x 0.

(** The dtype's float nearest to [m * 2^e]. *)
Definition float_of `{Dtype} (m e : Z) : float :=
  binary_normalize dt_prec dt_emax m e false.

(** [x] is a number (not NaN) and [0 <= x]. *)
Definition fnonneg (x : float) : bool := SFleb fzero x.

(** ** Tensors *)

Record Tensor (A : Type) : Type := mkTensor { shape : list nat; data : list A }.
Arguments mkTensor {A} _ _.
Arguments shape {A} _.
Arguments data {A} _.

Definition numel (size : list Z) : Z := fold_right Z.mul 1 size.

(** The tensor of extent [size] filled with [zero]. *)
Definition zeros {A : Type} (zero : A) (size : list Z) : Tensor A :=
  mkTensor (map Z.to_nat size) (replicate (Z.to_nat (numel size)) zero).

(** The machine the call runs on: the largest number of elements a tensor
    newly allocated on it can have; torch refuses a larger one.  The room
    for one tensor is taken not to depend on the tensors allocated before
    it.  A one-element tensor can always be had, and no tensor has [2^63]
    elements. *)
Class Machine : Type := {
  max_numel : Z;
  max_numel_lower : 1 <= max_numel;
  max_numel_upper : max_numel < 2 ^ 63
}.

(** Every dimension of [size] is a 64-bit integer. *)
Definition int64_size (size : list Z) : bool :=
  forallb (fun d => (- 2 ^ 63 <=? d) && (d <? 2 ^ 63)) size.

(** A tensor of extent [size] can be allocated: the dimensions are 64-bit
    integers, none is negative, and the machine has room for the elements. *)
Definition allocatable `{Machine} (size : list Z) : bool :=
  int64_size size && forallb (fun d => 0 <=? d) size
  && (numel size <=? max_numel).

(** What torch raises for a size it refuses. *)
Definition alloc_error (size : list Z) : PyError :=
  if int64_size size then RuntimeError else TypeError.

(** [t.new_zeros(size)] for a size given by Python ints. *)
Definition new_zeros `{Machine} {A : Type} (zero : A) (size : list Z)
    : PyError + Tensor A :=
  if allocatable size then inr (zeros zero size) else inl (alloc_error size).

(** [t.new_zeros(t'.shape)]: a tensor of the extent of [t'], which is in
    memory; the machine is taken to have room for another of that
    extent. *)
Definition new_zeros_like {A B : Type} (zero : B) (t' : Tensor A)
    : PyError + Tensor B :=
  inr (zeros zero (map Z.of_nat (shape t'))).

(** [t.int().fill_(v)] *)
Definition fill_ {A B : Type} (t : Tensor A) (v : B) : Tensor B :=
  mkTensor (shape t) (replicate (length (data t)) v).

(** [t[0].item()] of a tensor that holds one element. *)
Definition item (t : Tensor Z) : Z := hd 0 (data t).

(** A kernel writes into the storage of a tensor it is given: the contents
    change, the extent does not.  [written old new] is the storage [old]
    after the kernel stored [new] from its start; what the kernel would
    store past the end is not part of the tensor. *)
Definition written {A : Type} (old new : list A) : list A :=
  take (length old) (new ++ drop (length new) old).

Definition mutate {A : Type} (t : Tensor A) (new : list A) : Tensor A :=
  mkTensor (shape t) (written (data t) new).

(** The same for a counter the kernel adds to: the int32 tensor holds the
    totals modulo [2^32]. *)
Definition mutate_counter (t : Tensor Z) (new : list Z) : Tensor Z :=
  mutate t (map wrap_int32 new).

(** [torch.sqrt(t)] *)
Definition torch_sqrt `{Dtype} (t : Tensor float) : Tensor float :=
  mkTensor (shape t) (map fsqrt (data t)).

(** [torch.tensor(v)] of a Python int: a 0-d tensor. *)
Definition torch_tensor (v : Z) : Tensor Z := mkTensor [] [v].

(** ** The extension module *)

(** Arguments of [ext_module.stack_query_local_neighbor_idxs], in order. *)
Record GatherArgs : Type := mkGatherArgs {
  g_xyz : Tensor float;
  g_xyz_batch_cnt : Tensor Z;
  g_new_xyz : Tensor float;
  g_new_xyz_batch_cnt : Tensor Z;
  g_stack_neighbor_idxs : Tensor Z;
  g_start_len : Tensor Z;
  g_cumsum : Tensor Z;
  g_avg_length_of_neighbor_idxs : Z;
  g_max_neighbour_distance : float;
  g_nsample : Z;
  g_neighbor_type : Z
}.

(** Arguments of [ext_module.stack_query_three_nn_local_idxs], in order. *)
Record RefineArgs : Type := mkRefineArgs {
  r_xyz : Tensor float;
  r_new_xyz : Tensor float;
  r_new_xyz_grid_centers : Tensor float;
  r_new_xyz_grid_idxs : Tensor Z;
  r_new_xyz_grid_dist2 : Tensor float;
  r_stack_neighbor_idxs : Tensor Z;
  r_start_len : Tensor Z;
  r_num_new_xyz : Z;
  r_num_total_grids : Z
}.

(** What the gather kernel stores into [stack_neighbor_idxs], [start_len]
    and [cumsum].  The two buffers receive the C ints the kernel stores;
    [w_cumsum] is the total it counted, which the int32 counter holds
    modulo [2^32] (see [mutate_counter]). *)
Record GatherWrites : Type := mkGatherWrites {
  w_stack_neighbor_idxs : list Z;
  w_start_len : list Z;
  w_cumsum : list Z
}.

(** What the refine kernel stores into [new_xyz_grid_idxs] and
    [new_xyz_grid_dist2]. *)
Record RefineWrites : Type := mkRefineWrites {
  w_new_xyz_grid_idxs : list Z;
  w_new_xyz_grid_dist2 : list float
}.

(** [ext_module]: the two kernels loaded from [_ext]. *)
Class ExtModule : Type := {
  stack_query_local_neighbor_idxs : GatherArgs -> GatherWrites;
  stack_query_three_nn_local_idxs : RefineArgs -> RefineWrites
}.

(** ** Effects: exceptions, the unbounded loop, and the kernel launches

    A computation either returns, raises, or is still looping when the fuel
    of the [while True] is used up.  The state is the log of the kernel
    launches made so far, with the arguments each launch received. *)

Inductive Launch : Type :=
| LaunchGather (a : GatherArgs)
| LaunchRefine (a : RefineArgs).

Inductive outcome (A : Type) : Type :=
| Ret (a : A)
| Raise (e : PyError)
| OutOfFuel.
Arguments Ret {A} _.
Arguments Raise {A} _.
Arguments OutOfFuel {A}.

Definition M (A : Type) : Type := list Launch -> outcome A * list Launch.

Definition ret {A : Type} (a : A) : M A := fun log => (Ret a, log).

Definition raise {A : Type} (e : PyError) : M A := fun log => (Raise e, log).

Definition bind {A B : Type} (m : M A) (k : A -> M B) : M B :=
  fun log =>
    match m log with
    | (Ret a, log') => k a log'
    | (Raise e, log') => (Raise e, log')
    | (OutOfFuel, log') => (OutOfFuel, log')
    end.

Definition lift {A : Type} (r : PyError + A) : M A :=
  match r with inl e => raise e | inr a => ret a end.

Definition launch (l : Launch) : M unit := fun log => (Ret tt, log ++ [l]).

#[global] Instance M_ret : MRet M := @ret.
#[global] Instance M_bind : MBind M := fun A B k m => bind m k.

(** ** [ThreeNNVectorPoolByTwoStep.forward] *)

(** The arguments of [forward] after [ctx]. *)
Record Input : Type := mkInput {
  xyz : Tensor float;
  xyz_batch_cnt : Tensor Z;
  new_xyz : Tensor float;
  new_xyz_grid_centers : Tensor float;
  new_xyz_batch_cnt : Tensor Z;
  max_neighbour_distance : float;
  nsample : Z;
  neighbor_type : Z;
  avg_length_of_neighbor_idxs : Z;
  num_total_grids : Z;
  neighbor_distance_multiplier : float
}.

(** The variables one iteration of the loop leaves behind. *)
Record PassState : Type := mkPassState {
  ps_num_max_sum_points : Z;
  ps_stack_neighbor_idxs : Tensor Z;
  ps_start_len : Tensor Z;
  ps_cumsum : Tensor Z;
  ps_avg_length_of_neighbor_idxs : Z
}.

Section Forward.
Context `{Dtype} `{Machine} `{ExtModule}.
Variable inp : Input.

(** [new_xyz.shape[0]] *)
Definition shape0 {A : Type} (t : Tensor A) : M Z :=
  match shape t with
  | [] => raise IndexError
  | d :: _ => ret (Z.of_nat d)
  end.

(** The arguments of the gather launch of one pass: every buffer is the
    one just allocated. *)
Definition gather_args (stack_neighbor_idxs start_len cumsum : Tensor Z)
    (avg : Z) : GatherArgs :=
  {| g_xyz := xyz inp;
     g_xyz_batch_cnt := xyz_batch_cnt inp;
     g_new_xyz := new_xyz inp;
     g_new_xyz_batch_cnt := new_xyz_batch_cnt inp;
     g_stack_neighbor_idxs := stack_neighbor_idxs;
     g_start_len := start_len;
     g_cumsum := cumsum;
     g_avg_length_of_neighbor_idxs := avg;
     g_max_neighbour_distance :=
       py_float_mul (max_neighbour_distance inp)
                    (neighbor_distance_multiplier inp);
     g_nsample := nsample inp;
     g_neighbor_type := neighbor_type inp |}.

(** The body of the [while True] loop up to the test (lines 62-76).  The
    three buffers are allocated anew, so [.contiguous()] hands the kernel
    the buffers themselves and what it stores is seen afterwards.  The
    estimate is recomputed before the test, on every pass. *)
Definition gather_pass (num_new_xyz avg : Z) : M PassState :=
  let num_max_sum_points := avg * num_new_xyz in
  stack_neighbor_idxs ← lift (new_zeros 0 [num_max_sum_points]);
  start_len ← lift (new_zeros 0 [num_new_xyz; 2]);
  cumsum ← lift (new_zeros 0 [1]);
  let args := gather_args stack_neighbor_idxs start_len cumsum avg in
  launch (LaunchGather args) ;;
  let w := stack_query_local_neighbor_idxs args in
  let stack_neighbor_idxs := mutate stack_neighbor_idxs (w_stack_neighbor_idxs w) in
  let start_len := mutate start_len (w_start_len w) in
  let cumsum := mutate_counter cumsum (w_cumsum w) in
  avg ← lift (new_estimate (item cumsum) num_new_xyz);
  ret {| ps_num_max_sum_points := num_max_sum_points;
         ps_stack_neighbor_idxs := stack_neighbor_idxs;
         ps_start_len := start_len;
         ps_cumsum := cumsum;
         ps_avg_length_of_neighbor_idxs := avg |}.

(** [while True: ...; if cumsum[0] <= num_max_sum_points: break] *)
Fixpoint gather_loop (fuel : nat) (num_new_xyz avg : Z) : M PassState :=
  match fuel with
  | O => fun log => (OutOfFuel, log)
  | S fuel' =>
      p ← gather_pass num_new_xyz avg;
      if tensor_le (item (ps_cumsum p)) (ps_num_max_sum_points p)
      then ret p
      else gather_loop fuel' num_new_xyz (ps_avg_length_of_neighbor_idxs p)
  end.

(** The arguments of the refinement launch (lines 81-85): the candidate
    buffer of the accepted pass cut by [[:cumsum[0]]]. *)
Definition refine_args (num_new_xyz : Z)
    (new_xyz_grid_idxs : Tensor Z) (new_xyz_grid_dist2 : Tensor float)
    (p : PassState) : RefineArgs :=
  {| r_xyz := xyz inp;
     r_new_xyz := new_xyz inp;
     r_new_xyz_grid_centers := new_xyz_grid_centers inp;
     r_new_xyz_grid_idxs := new_xyz_grid_idxs;
     r_new_xyz_grid_dist2 := new_xyz_grid_dist2;
     r_stack_neighbor_idxs :=
       mkTensor [length (py_slice_to (data (ps_stack_neighbor_idxs p))
                                     (item (ps_cumsum p)))]
                (py_slice_to (data (ps_stack_neighbor_idxs p))
                             (item (ps_cumsum p)));
     r_start_len := ps_start_len p;
     r_num_new_xyz := num_new_xyz;
     r_num_total_grids := num_total_grids inp |}.

(** [forward], with [fuel] rounds for the loop (lines 55-88). *)
Definition forward (fuel : nat)
    : M (Tensor float * Tensor Z * Tensor Z) :=
  num_new_xyz ← shape0 (new_xyz inp);
  new_xyz_grid_dist2 ← lift (new_zeros_like fzero (new_xyz_grid_centers inp));
  new_xyz_grid_idxs_0 ← lift (new_zeros_like fzero (new_xyz_grid_centers inp));
  let new_xyz_grid_idxs := fill_ new_xyz_grid_idxs_0 (-1) in
  p ← gather_loop fuel num_new_xyz (avg_length_of_neighbor_idxs inp);
  let args := refine_args num_new_xyz new_xyz_grid_idxs new_xyz_grid_dist2 p in
  launch (LaunchRefine args) ;;
  let w := stack_query_three_nn_local_idxs args in
  let new_xyz_grid_idxs := mutate new_xyz_grid_idxs (w_new_xyz_grid_idxs w) in
  let new_xyz_grid_dist2 := mutate new_xyz_grid_dist2 (w_new_xyz_grid_dist2 w) in
  ret (torch_sqrt new_xyz_grid_dist2, new_xyz_grid_idxs,
       torch_tensor (ps_avg_length_of_neighbor_idxs p)).

End Forward.

(** ** The two kernels, as the specification describes them

    The kernels live in the compiled extension.  The definitions of this
    section follow sections 4.1 and 4.2 of the specification; they
    instantiate [ExtModule] where a concrete kernel is needed. *)

Section Kernels.
Context `{Dtype}.

(** Coordinate [axis] of point [i] of an [(N, 3)] tensor. *)
Definition coord (t : Tensor float) (i axis : nat) : float :=
  default fzero (data t !! (i * 3 + axis)%nat).

Definition point (t : Tensor float) (i : nat) : float * float * float :=
  (coord t i 0, coord t i 1, coord t i 2).

(** Squared Euclidean distance, in the tensor's dtype. *)
Definition dist2 (p q : float * float * float) : float :=
  let '(px, py, pz) := p in
  let '(qx, qy, qz) := q in
  let dx := fsub px qx in
  let dy := fsub py qy in
  let dz := fsub pz qz in
  fadd (fadd (fmul dx dx) (fmul dy dy)) (fmul dz dz).

(** "Euclidean distance <= searchRadius for ball" *)
Definition in_ball (r : float) (p q : float * float * float) : bool :=
  SFleb (fsqrt (dist2 p q)) r.

(** "per-axis absolute difference <= searchRadius for cube" *)
Definition in_cube (r : float) (p q : float * float * float) : bool :=
  let '(px, py, pz) := p in
  let '(qx, qy, qz) := q in
  SFleb (SFabs (fsub px qx)) r
  && SFleb (SFabs (fsub py qy)) r
  && SFleb (SFabs (fsub pz qz)) r.

(** [neighbor_type]: "1: ball, others: cube" (docstring of [forward]). *)
Definition in_neighbourhood (neighbor_type : Z) (r : float)
    (p q : float * float * float) : bool :=
  if neighbor_type =? 1 then in_ball r p q else in_cube r p q.

(** The batch element that owns position [i] of a flat array partitioned
    by the counts [cnt]; [b] is the index of the head of [cnt]. *)
Fixpoint batch_of (cnt : list Z) (b : nat) (i : Z) : option nat :=
  match cnt with
  | [] => None
  | n :: cnt' => if i <? n then Some b else batch_of cnt' (S b) (i - n)
  end.

(** First flat index owned by batch element [b]. *)
Definition batch_start (cnt : list Z) (b : nat) : Z :=
  fold_right Z.add 0 (take b cnt).

(** Modelled from the spec: the candidates one query center accepts
    (section 4.1; the kernel [stack_query_local_neighbor_idxs] is in the
    compiled extension).  The center's batch element is found by
    position; every source point of the matching batch element is
    scanned and accepted when it satisfies the predicate; at most
    [nsample] are accepted when [nsample] is positive. *)
Definition accepted (a : GatherArgs) (c : nat) : list Z :=
  match batch_of (data (g_new_xyz_batch_cnt a)) 0 (Z.of_nat c) with
  | None => []
  | Some b =>
      let first := Z.to_nat (batch_start (data (g_xyz_batch_cnt a)) b) in
      let count := Z.to_nat (default 0 (data (g_xyz_batch_cnt a) !! b)) in
      let hits :=
        filter (fun k => in_neighbourhood (g_neighbor_type a)
                           (fcast (g_max_neighbour_distance a))
                           (point (g_xyz a) k) (point (g_new_xyz a) c) = true)
               (seq first count) in
      let kept :=
        if 0 <? g_nsample a then take (Z.to_nat (g_nsample a)) hits else hits in
      map Z.of_nat kept
  end.

(** The slice records [(offset, length)] of the centers, in center order,
    starting at the running total [offset]. *)
Fixpoint slice_records (offset : Z) (cands : list (list Z)) : list Z :=
  match cands with
  | [] => []
  | l :: cands' =>
      offset :: Z.of_nat (length l)
        :: slice_records (offset + Z.of_nat (length l)) cands'
  end.

(** Modelled from the spec: the gather scan (section 4.1), run by a
    single thread with a plain running total (section 9).  The centers
    are those of [new_xyz]; the accepted indices are laid out in center
    order, the counter is the total accepted, and neither depends on the
    capacity of the buffer. *)
Definition gather_scan (a : GatherArgs) : GatherWrites :=
  let centers := seq 0 (hd 0%nat (shape (g_new_xyz a))) in
  let cands := map (accepted a) centers in
  {| w_stack_neighbor_idxs := concat cands;
     w_start_len := slice_records 0 cands;
     w_cumsum := [Z.of_nat (length (concat cands))] |}.

(** Insertion into a list of (squared distance, index) pairs kept in
    ascending order of distance. *)
Fixpoint insert_by_dist (x : float * Z) (l : list (float * Z))
    : list (float * Z) :=
  match l with
  | [] => [x]
  | y :: l' => if SFltb (fst x) (fst y) then x :: y :: l'
               else y :: insert_by_dist x l'
  end.

(** The candidate slice of center [c]:
    [candidateIndices[offset .. offset + length]]. *)
Definition candidate_slice (a : RefineArgs) (c : nat) : list Z :=
  let offset := default 0 (data (r_start_len a) !! (c * 2)%nat) in
  let len := default 0 (data (r_start_len a) !! (c * 2 + 1)%nat) in
  take (Z.to_nat len) (drop (Z.to_nat offset) (data (r_stack_neighbor_idxs a))).

(** Modelled from the spec: the three output slots of grid sample [g] of
    center [c] (section 4.2): the three nearest candidates of the
    center's slice by squared distance to the sample, ascending; a slot
    with no candidate takes index -1 and the distance sentinel [far]. *)
Definition three_nn (far : float) (a : RefineArgs) (c g : nat)
    : list (float * Z) :=
  let G := Z.to_nat (r_num_total_grids a) in
  let sample := point (r_new_xyz_grid_centers a) (c * G + g) in
  let scored :=
    map (fun i => (dist2 sample (point (r_xyz a) (Z.to_nat i)), i))
        (candidate_slice a c) in
  take 3 (foldr insert_by_dist [] scored ++ replicate 3 (far, -1)).

(** Modelled from the spec: the refinement (section 4.2; the kernel
    [stack_query_three_nn_local_idxs] is in the compiled extension): for
    each of the [num_new_xyz] centers and each of its [num_total_grids]
    samples, the three slots of [three_nn], at [(c * G + g) * 3 + k]. *)
Definition refine_scan (far : float) (a : RefineArgs) : RefineWrites :=
  let M := Z.to_nat (r_num_new_xyz a) in
  let G := Z.to_nat (r_num_total_grids a) in
  let slots :=
    flat_map (fun c => flat_map (three_nn far a c) (seq 0 G)) (seq 0 M) in
  {| w_new_xyz_grid_idxs := map snd slots;
     w_new_xyz_grid_dist2 := map fst slots |}.

(** The extension module of the specification, for a distance sentinel. *)
Definition spec_ext (far : float) : ExtModule :=
  {| stack_query_local_neighbor_idxs := gather_scan;
     stack_query_three_nn_local_idxs := refine_scan far |}.

End Kernels.

(** ** Notions used to state the properties *)

Definition gather_launches (log : list Launch) : list GatherArgs :=
  omap (fun l => match l with LaunchGather a => Some a | _ => None end) log.

Definition refine_launches (log : list Launch) : list RefineArgs :=
  omap (fun l => match l with LaunchRefine a => Some a | _ => None end) log.

(** Capacity of the candidate buffer a gather launch was given. *)
Definition capacity (g : GatherArgs) : Z :=
  Z.of_nat (length (data (g_stack_neighbor_idxs g))).

(** [n] is the ceiling of the rational [c / d], for [0 < d]. *)
Definition is_ceil (c d n : Z) : Prop := (n - 1) * d < c <= n * d.

Section Passes.
Context `{Dtype} `{ExtModule}.
Variable inp : Input.

(** The counter, the slice records and the candidate buffer after the
    scan launched with [g]. *)
Definition cumsum_after (g : GatherArgs) : Tensor Z :=
  mutate_counter (g_cumsum g) (w_cumsum (stack_query_local_neighbor_idxs g)).
Definition start_len_after (g : GatherArgs) : Tensor Z :=
  mutate (g_start_len g) (w_start_len (stack_query_local_neighbor_idxs g)).
Definition stack_after (g : GatherArgs) : Tensor Z :=
  mutate (g_stack_neighbor_idxs g)
         (w_stack_neighbor_idxs (stack_query_local_neighbor_idxs g)).

(** The consumed total the int32 counter holds after the scan launched
    with [g]. *)
Definition consumed (g : GatherArgs) : Z := item (cumsum_after g).

(** The launch of a pass with estimate [avg] over [n] query centers:
    all three buffers are new and zeroed. *)
Definition fresh_gather_args (n avg : Z) : GatherArgs :=
  gather_args inp (zeros 0 [avg * n]) (zeros 0 [n; 2]) (zeros 0 [1]) avg.

(** The estimate after a pass that consumed [c], for [n <> 0]. *)
Definition next_estimate (c n : Z) : Z :=
  match new_estimate c n with inr a => a | inl _ => 0 end.

(** The state a pass with estimate [avg] leaves, for [n <> 0]. *)
Definition pass_state (n avg : Z) : PassState :=
  let g := fresh_gather_args n avg in
  {| ps_num_max_sum_points := avg * n;
     ps_stack_neighbor_idxs := stack_after g;
     ps_start_len := start_len_after g;
     ps_cumsum := cumsum_after g;
     ps_avg_length_of_neighbor_idxs := next_estimate (consumed g) n |}.

(** The output buffers as [forward] allocates them. *)
Definition init_dist2 : Tensor float :=
  zeros fzero (map Z.of_nat (shape (new_xyz_grid_centers inp))).
Definition init_idxs : Tensor Z :=
  fill_ init_dist2 (-1).

(** The output buffers after the refinement launched with [r]. *)
Definition dist2_after (r : RefineArgs) : Tensor float :=
  mutate (r_new_xyz_grid_dist2 r)
         (w_new_xyz_grid_dist2 (stack_query_three_nn_local_idxs r)).
Definition idxs_after (r : RefineArgs) : Tensor Z :=
  mutate (r_new_xyz_grid_idxs r)
         (w_new_xyz_grid_idxs (stack_query_three_nn_local_idxs r)).

(** What [forward] returns after the accepted pass [p]. *)
Definition outputs (n : Z) (p : PassState)
    : Tensor float * Tensor Z * Tensor Z :=
  let r := refine_args inp n init_idxs init_dist2 p in
  (torch_sqrt (dist2_after r), idxs_after r,
   torch_tensor (ps_avg_length_of_neighbor_idxs p)).

End Passes.

(** Flat position of slot [k] of grid sample [g] of center [c], with [G]
    samples per center. *)
Definition slot (G c g k : nat) : nat := ((c * G + g) * 3 + k)%nat.

(** [new_xyz.shape[0]] as a number, for a tensor with a first dimension. *)
Definition num_query_centers (inp : Input) : Z :=
  Z.of_nat (hd 0%nat (shape (new_xyz inp))).

(** The estimate [forward] returns, read off its third tensor. *)
Definition final_estimate (out : Tensor float * Tensor Z * Tensor Z) : Z :=
  item (snd out).

(** The same call with another [avg_length_of_neighbor_idxs]. *)
Definition with_estimate (inp : Input) (avg : Z) : Input :=
  {| xyz := xyz inp;
     xyz_batch_cnt := xyz_batch_cnt inp;
     new_xyz := new_xyz inp;
     new_xyz_grid_centers := new_xyz_grid_centers inp;
     new_xyz_batch_cnt := new_xyz_batch_cnt inp;
     max_neighbour_distance := max_neighbour_distance inp;
     nsample := nsample inp;
     neighbor_type := neighbor_type inp;
     avg_length_of_neighbor_idxs := avg;
     num_total_grids := num_total_grids inp;
     neighbor_distance_multiplier := neighbor_distance_multiplier inp |}.

(** The buffers of a pass with estimate [avg] over [n] query centers can
    be allocated; the counter, of one element, always can. *)
Definition pass_fits `{Machine} (n avg : Z) : bool :=
  allocatable [avg * n] && allocatable [n; 2].

(** What the allocations of a pass that does not fit raise. *)
Definition pass_alloc_error `{Machine} (n avg : Z) : PyError :=
  if allocatable [avg * n] then alloc_error [n; 2] else alloc_error [avg * n].

(** A pass whose buffers can be allocated and whose capacity an int32
    holds: the comparison of line 78 is then the comparison of the
    numbers. *)
Definition plain_pass `{Machine} (n avg : Z) : bool :=
  pass_fits n avg && (avg * n <? 2 ^ 31).

(** The runs of the retry loop over [n] query centers, as a relation:
    [passes inp n avg gs res] when the loop entered with estimate [avg]
    launches the scans [gs], in this order, and ends in [res]. *)
Inductive passes `{Dtype} `{Machine} `{ExtModule} (inp : Input) (n : Z)
    : Z -> list GatherArgs -> outcome PassState -> Prop :=
| passes_fuel (avg : Z) :
    passes inp n avg [] OutOfFuel
| passes_alloc (avg : Z) :
    pass_fits n avg = false ->
    passes inp n avg [] (Raise (pass_alloc_error n avg))
| passes_div (avg : Z) :
    pass_fits n avg = true -> n = 0 ->
    passes inp n avg [fresh_gather_args inp n avg] (Raise ZeroDivisionError)
| passes_accept (avg : Z) :
    pass_fits n avg = true -> n <> 0 ->
    tensor_le (consumed (fresh_gather_args inp n avg)) (avg * n) = true ->
    passes inp n avg [fresh_gather_args inp n avg]
           (Ret (pass_state inp n avg))
| passes_retry (avg : Z) (gs : list GatherArgs) (res : outcome PassState) :
    pass_fits n avg = true -> n <> 0 ->
    tensor_le (consumed (fresh_gather_args inp n avg)) (avg * n) = false ->
    passes inp n
           (next_estimate (consumed (fresh_gather_args inp n avg)) n) gs res ->
    passes inp n avg (fresh_gather_args inp n avg :: gs) res.

(** ** Concrete calls *)

(** An [(N, 3)] tensor of points with integer coordinates. *)
Definition points `{Dtype} (l : list (Z * Z * Z)) : Tensor float :=
  mkTensor [length l; 3%nat]
           (flat_map (fun '(x, y, z) =>
                        [float_of x 0; float_of y 0; float_of z 0]) l).

(** A 1-d integer tensor. *)
Definition ints (l : list Z) : Tensor Z := mkTensor [length l] l.

(** The Python float [m * 2^e]. *)
Definition py_float (m e : Z) : float := @float_of float64 m e.

(** A large, finite distance sentinel: the largest float32. *)
Definition far_sentinel : float := SFmax_float 24 128.

(** The extension module of the specification on float32 tensors. *)
Definition spec_module : ExtModule := @spec_ext float32 far_sentinel.

(** One batch element: a cluster of four source points around the origin
    and an outlier; three query centers, at the origin, at the outlier and
    far from everything, each with one grid sample at the center itself;
    ball of radius 2, no sample cap, initial estimate 1. *)
Definition cluster_call : Input :=
  {| xyz := @points float32
              [(0, 0, 0); (1, 0, 0); (0, 1, 0); (10, 10, 10); (0, 0, 1)];
     xyz_batch_cnt := ints [5];
     new_xyz := @points float32 [(0, 0, 0); (10, 10, 10); (50, 50, 50)];
     new_xyz_grid_centers :=
       mkTensor [3%nat; 1%nat; 3%nat]
                (data (@points float32 [(0, 0, 0); (10, 10, 10); (50, 50, 50)]));
     new_xyz_batch_cnt := ints [3];
     max_neighbour_distance := py_float 2 0;
     nsample := -1;
     neighbor_type := 1;
     avg_length_of_neighbor_idxs := 1;
     num_total_grids := 1;
     neighbor_distance_multiplier := py_float 1 0 |}.

(** A call that breaks every validity condition of the specification at
    once: batch-count arrays of lengths 1 and 2, search radius -1,
    [num_total_grids] 0, initial estimate 0. *)
Definition invalid_call : Input :=
  {| xyz := @points float32 [(0, 0, 0); (1, 0, 0)];
     xyz_batch_cnt := ints [2];
     new_xyz := @points float32 [(0, 0, 0)];
     new_xyz_grid_centers := mkTensor [1%nat; 0%nat; 3%nat] [];
     new_xyz_batch_cnt := ints [1; 0];
     max_neighbour_distance := py_float (-1) 0;
     nsample := -1;
     neighbor_type := 1;
     avg_length_of_neighbor_idxs := 0;
     num_total_grids := 0;
     neighbor_distance_multiplier := py_float 1 0 |}.

(** A valid call with no query center. *)
Definition empty_call : Input :=
  {| xyz := @points float32 [(0, 0, 0); (1, 0, 0)];
     xyz_batch_cnt := ints [2];
     new_xyz := @points float32 [];
     new_xyz_grid_centers := mkTensor [0%nat; 1%nat; 3%nat] [];
     new_xyz_batch_cnt := ints [0];
     max_neighbour_distance := py_float 2 0;
     nsample := -1;
     neighbor_type := 1;
     avg_length_of_neighbor_idxs := 1;
     num_total_grids := 1;
     neighbor_distance_multiplier := py_float 1 0 |}.

(** A gather kernel that reports one candidate more than the buffer it
    was given can hold, as far as an int32 counter goes (and stores
    nothing), beside the refinement of the specification. *)
Definition overflowing_module : ExtModule :=
  {| stack_query_local_neighbor_idxs :=
       fun a => {| w_stack_neighbor_idxs := [];
                   w_start_len := [];
                   w_cumsum := [Z.min (capacity a + 1) (2 ^ 31 - 1)] |};
     stack_query_three_nn_local_idxs := @refine_scan float32 far_sentinel |}.

(** A gather kernel that counts [c] candidates on every pass (and stores
    nothing), beside the refinement of the specification. *)
Definition counting_module (c : Z) : ExtModule :=
  {| stack_query_local_neighbor_idxs :=
       fun a => {| w_stack_neighbor_idxs := [];
                   w_start_len := [];
                   w_cumsum := [c] |};
     stack_query_three_nn_local_idxs := @refine_scan float32 far_sentinel |}.

(** The extension module of the specification whose refinement leaves
    the distance of a slot without candidate at zero. *)
Definition zero_sentinel_module : ExtModule := @spec_ext float32 fzero.

(** [cluster_call] with every grid sample moved off its center: the
    sample of the first center to (1, 1, 0), at squared distances 2, 1, 1
    and 3 from the four source points of the cluster, the sample of the
    second to (10, 10, 13), at squared distance 9 from the outlier. *)
Definition offset_call : Input :=
  {| xyz := xyz cluster_call;
     xyz_batch_cnt := xyz_batch_cnt cluster_call;
     new_xyz := new_xyz cluster_call;
     new_xyz_grid_centers :=
       mkTensor [3%nat; 1%nat; 3%nat]
                (data (@points float32
                         [(1, 1, 0); (10, 10, 13); (50, 50, 50)]));
     new_xyz_batch_cnt := new_xyz_batch_cnt cluster_call;
     max_neighbour_distance := max_neighbour_distance cluster_call;
     nsample := nsample cluster_call;
     neighbor_type := neighbor_type cluster_call;
     avg_length_of_neighbor_idxs := avg_length_of_neighbor_idxs cluster_call;
     num_total_grids := num_total_grids cluster_call;
     neighbor_distance_multiplier := neighbor_distance_multiplier cluster_call |}.

(** A machine with room for [2^34] elements in a tensor (64 GiB of
    int32). *)
Definition big_machine : Machine.
Proof. by refine {| max_numel := 2 ^ 34 |}. Defined.

(** [cluster_call] with a grid tensor of two samples per center while
    [num_total_grids] stays 1: [forward] compares neither with the other. *)
Definition wide_grid_call : Input :=
  {| xyz := xyz cluster_call;
     xyz_batch_cnt := xyz_batch_cnt cluster_call;
     new_xyz := new_xyz cluster_call;
     new_xyz_grid_centers :=
       mkTensor [3%nat; 2%nat; 3%nat]
                (data (@points float32
                         [(0, 0, 0); (0, 0, 0); (10, 10, 10);
                          (10, 10, 10); (50, 50, 50); (50, 50, 50)]));
     new_xyz_batch_cnt := new_xyz_batch_cnt cluster_call;
     max_neighbour_distance := max_neighbour_distance cluster_call;
     nsample := nsample cluster_call;
     neighbor_type := neighbor_type cluster_call;
     avg_length_of_neighbor_idxs := 2;
     num_total_grids := 1;
     neighbor_distance_multiplier := neighbor_distance_multiplier cluster_call |}.

(** ** Square roots, read as numbers

    A finite float [S754_finite s m e] is the number [(-1)^s * m * 2^e].
    The definitions below compare such numbers exactly, in integers. *)

(** [m1 * 2^e1 <= m2 * 2^e2] and [m1 * 2^e1 < m2 * 2^e2]. *)
Definition dyadic_leb (m1 e1 m2 e2 : Z) : bool :=
  m1 * 2 ^ (e1 - Z.min e1 e2) <=? m2 * 2 ^ (e2 - Z.min e1 e2).

Definition dyadic_ltb (m1 e1 m2 e2 : Z) : bool :=
  m1 * 2 ^ (e1 - Z.min e1 e2) <? m2 * 2 ^ (e2 - Z.min e1 e2).

(** [d] is a positive finite float [mr * 2^er] within one unit in its last
    place of the square root of [m * 2^e]:
    [((mr - 1) * 2^er)^2 <= m * 2^e < ((mr + 1) * 2^er)^2]. *)
Definition root_within_ulp (d : float) (m : positive) (e : Z) : bool :=
  match d with
  | S754_finite false mr er =>
      dyadic_leb ((Z.pos mr - 1) ^ 2) (2 * er) (Z.pos m) e
      && dyadic_ltb (Z.pos m) e ((Z.pos mr + 1) ^ 2) (2 * er)
  | _ => false
  end.

(** The dtype is a binary format in the sense of IEEE-754: at least one
    digit of precision, fewer than the exponent bound. *)
Definition valid_format `{Dtype} : Prop := 0 < dt_prec < dt_emax.

(** [m'] is [m] with its [k] lowest binary digits dropped. *)
Definition shifted (k m m' : Z) : Prop :=
  0 <= m' /\ 2 ^ k * m' <= m < 2 ^ k * (m' + 1).

(** * Properties *)

(** ** The monad and the tensors *)

Lemma int64_size_below `{Machine} (size : list Z) :
  Forall (fun d => 0 <= d <= max_numel) size -> int64_size size = true.
Proof.
  intros Hs. unfold int64_size. apply forallb_forall. intros d Hd.
  rewrite Forall_forall in Hs. specialize (Hs d (proj2 (list_elem_of_In _ _) Hd)).
  pose proof max_numel_upper. apply andb_true_iff. split.
  - apply Z.leb_le. lia.
  - apply Z.ltb_lt. lia.
Qed.

Lemma allocatable_1d `{Machine} (k : Z) :
  allocatable [k] = true <-> 0 <= k <= max_numel.
Proof.
  unfold allocatable, int64_size, numel. simpl.
  rewrite !andb_true_r, !andb_true_iff, !Z.leb_le, Z.ltb_lt.
  pose proof max_numel_upper. lia.
Qed.

Lemma allocatable_rows `{Machine} (n : Z) :
  0 <= n -> allocatable [n; 2] = true <-> n * 2 <= max_numel.
Proof.
  intros Hn. unfold allocatable, int64_size, numel. simpl.
  rewrite !andb_true_r, !andb_true_iff, !Z.leb_le, !Z.ltb_lt.
  pose proof max_numel_upper. lia.
Qed.

Lemma allocatable_one `{Machine} : allocatable [1] = true.
Proof. apply allocatable_1d. pose proof max_numel_lower. lia. Qed.

Lemma new_zeros_fits `{Machine} {A : Type} (zero : A) (size : list Z) :
  allocatable size = true -> new_zeros zero size = inr (zeros zero size).
Proof. intros Hs. unfold new_zeros. by rewrite Hs. Qed.

Lemma new_zeros_refused `{Machine} {A : Type} (zero : A) (size : list Z) :
  allocatable size = false -> new_zeros zero size = inl (alloc_error size).
Proof. intros Hs. unfold new_zeros. by rewrite Hs. Qed.

(** The buffers of a pass fit exactly when the capacity is not negative
    and the machine has room for it and for the slice records. *)
Lemma pass_fits_iff `{Machine} (n avg : Z) :
  0 <= n ->
  pass_fits n avg = true
  <-> 0 <= avg * n <= max_numel /\ n * 2 <= max_numel.
Proof.
  intros Hn. unfold pass_fits.
  by rewrite andb_true_iff, allocatable_1d, allocatable_rows.
Qed.

(** A negative capacity is refused with [RuntimeError]. *)
Lemma pass_alloc_error_negative `{Machine} (n avg : Z) :
  - 2 ^ 63 <= avg * n < 0 ->
  pass_fits n avg = false /\ pass_alloc_error n avg = RuntimeError.
Proof.
  intros Hneg. unfold pass_fits, pass_alloc_error.
  assert (Hno : allocatable [avg * n] = false).
  { apply not_true_is_false. rewrite allocatable_1d. lia. }
  rewrite Hno. split; [done|]. unfold alloc_error, int64_size. simpl.
  destruct (Z.leb_spec (- 2 ^ 63) (avg * n)); [|lia].
  by destruct (Z.ltb_spec (avg * n) (2 ^ 63)); [|lia].
Qed.

(** An int32 holds a number of [[0, 2^31)] as it is, and never more than
    a non-negative number stored in it. *)
Lemma wrap_int32_small (z : Z) : - 2 ^ 31 <= z < 2 ^ 31 -> wrap_int32 z = z.
Proof.
  intros Hz. unfold wrap_int32. rewrite Z.mod_small; lia.
Qed.

Lemma wrap_int32_range (z : Z) : - 2 ^ 31 <= wrap_int32 z < 2 ^ 31.
Proof.
  unfold wrap_int32.
  pose proof (Z.mod_pos_bound (z + 2 ^ 31) (2 ^ 32) ltac:(lia)). lia.
Qed.

Lemma wrap_int32_le (z : Z) : 0 <= z -> wrap_int32 z <= z.
Proof.
  intros Hz. unfold wrap_int32.
  pose proof (Z.mod_le (z + 2 ^ 31) (2 ^ 32) ltac:(lia) ltac:(lia)). lia.
Qed.

(** A pass whose counter fits the compared capacity fits the capacity. *)
Lemma tensor_le_true (c k : Z) : 0 <= k -> tensor_le c k = true -> c <= k.
Proof.
  unfold tensor_le. intros Hk Hle%Z.leb_le.
  pose proof (wrap_int32_le k Hk). lia.
Qed.

Lemma tensor_le_small (c k : Z) :
  0 <= k < 2 ^ 31 -> tensor_le c k = (c <=? k).
Proof. intros Hk. unfold tensor_le. rewrite wrap_int32_small; [done|lia]. Qed.

Lemma length_written {A : Type} (old new : list A) :
  length (written old new) = length old.
Proof.
  unfold written. rewrite length_take, length_app, length_drop. lia.
Qed.

Lemma lookup_written_lt {A : Type} (old new : list A) (i : nat) :
  (i < length new)%nat -> (i < length old)%nat ->
  written old new !! i = new !! i.
Proof.
  intros Hn Ho. unfold written.
  rewrite lookup_take_lt by done. by rewrite lookup_app_l.
Qed.

Lemma lookup_written_ge {A : Type} (old new : list A) (i : nat) :
  (length new <= i)%nat -> written old new !! i = old !! i.
Proof.
  intros Hn. unfold written.
  destruct (decide (i < length old)%nat) as [Ho|Ho].
  - rewrite lookup_take_lt by done. rewrite lookup_app_r by done.
    rewrite lookup_drop. f_equal. lia.
  - rewrite lookup_take_ge by lia. symmetry. apply lookup_ge_None. lia.
Qed.

Lemma length_zeros {A : Type} (zero : A) (k : Z) :
  length (data (zeros zero [k])) = Z.to_nat k.
Proof. unfold zeros, numel. simpl. rewrite length_replicate. f_equal. lia. Qed.

(** ** One pass, the loop, and [forward], unfolded *)

Lemma new_estimate_zero (c : Z) : new_estimate c 0 = inl ZeroDivisionError.
Proof. reflexivity. Qed.

Lemma new_estimate_nonzero (c n : Z) :
  n <> 0 -> new_estimate c n = inr (c / n + py_int_of_bool (0 <? c mod n)).
Proof.
  intros Hn. unfold new_estimate, py_floordiv, py_mod.
  destruct (Z.eqb_spec n 0); [lia | done].
Qed.

Section ForwardFacts.
Context `{Dtype} `{Machine} `{ExtModule}.
Variable inp : Input.

Lemma gather_pass_run (n avg : Z) (log : list Launch) :
  gather_pass inp n avg log =
    if pass_fits n avg
    then if n =? 0
         then (Raise ZeroDivisionError,
               log ++ [LaunchGather (fresh_gather_args inp n avg)])
         else (Ret (pass_state inp n avg),
               log ++ [LaunchGather (fresh_gather_args inp n avg)])
    else (Raise (pass_alloc_error n avg), log).
Proof.
  unfold gather_pass, mbind, M_bind, bind, pass_fits, pass_alloc_error.
  destruct (allocatable [avg * n]) eqn:Hstack.
  - rewrite (new_zeros_fits _ _ Hstack). cbn [lift ret andb].
    destruct (allocatable [n; 2]) eqn:Hrows.
    + rewrite (new_zeros_fits _ _ Hrows), (new_zeros_fits _ _ allocatable_one).
      cbn [lift ret launch]. fold (fresh_gather_args inp n avg).
      destruct (Z.eqb_spec n 0) as [->|Hn0].
      * rewrite new_estimate_zero. reflexivity.
      * unfold pass_state, next_estimate, consumed, cumsum_after.
        rewrite !new_estimate_nonzero by done. reflexivity.
    + rewrite (new_zeros_refused _ _ Hrows). reflexivity.
  - rewrite (new_zeros_refused _ _ Hstack). reflexivity.
Qed.

Lemma gather_loop_S (fuel : nat) (n avg : Z) (log : list Launch) :
  gather_loop inp (S fuel) n avg log =
    let g := fresh_gather_args inp n avg in
    if pass_fits n avg
    then if n =? 0 then (Raise ZeroDivisionError, log ++ [LaunchGather g])
         else if tensor_le (consumed g) (avg * n)
              then (Ret (pass_state inp n avg), log ++ [LaunchGather g])
              else gather_loop inp fuel n (next_estimate (consumed g) n)
                               (log ++ [LaunchGather g])
    else (Raise (pass_alloc_error n avg), log).
Proof.
  simpl. unfold mbind, M_bind, bind. rewrite gather_pass_run.
  destruct (pass_fits n avg); [|done].
  destruct (n =? 0); [done|].
  simpl. fold (consumed (fresh_gather_args inp n avg)).
  by destruct (tensor_le (consumed (fresh_gather_args inp n avg)) (avg * n)).
Qed.

Lemma forward_run (fuel : nat) (log : list Launch) :
  forward inp fuel log =
    match shape (new_xyz inp) with
    | [] => (Raise IndexError, log)
    | d :: _ =>
        match gather_loop inp fuel (Z.of_nat d)
                          (avg_length_of_neighbor_idxs inp) log with
        | (Ret p, log') =>
            (Ret (outputs inp (Z.of_nat d) p),
             log' ++ [LaunchRefine
                        (refine_args inp (Z.of_nat d) (init_idxs inp)
                                     (init_dist2 inp) p)])
        | (Raise e, log') => (Raise e, log')
        | (OutOfFuel, log') => (OutOfFuel, log')
        end
    end.
Proof.
  unfold forward, mbind, M_bind, bind, shape0, new_zeros_like.
  destruct (shape (new_xyz inp)) as [|d s]; [done|]. simpl.
  by destruct (gather_loop inp fuel (Z.of_nat d)
                           (avg_length_of_neighbor_idxs inp) log)
    as [[p|e|] log'].
Qed.

End ForwardFacts.

(** ** The loop as a relation *)

Section LoopFacts.
Context `{Dtype} `{Machine} `{ExtModule}.
Variable inp : Input.

Lemma gather_launches_app (l1 l2 : list Launch) :
  gather_launches (l1 ++ l2) = gather_launches l1 ++ gather_launches l2.
Proof. unfold gather_launches. apply omap_app. Qed.

Lemma refine_launches_app (l1 l2 : list Launch) :
  refine_launches (l1 ++ l2) = refine_launches l1 ++ refine_launches l2.
Proof. unfold refine_launches. apply omap_app. Qed.

Lemma gather_launches_map (gs : list GatherArgs) :
  gather_launches (map LaunchGather gs) = gs.
Proof. induction gs as [|g gs IH]; [done|]. simpl. by rewrite IH. Qed.

Lemma refine_launches_map (gs : list GatherArgs) :
  refine_launches (map LaunchGather gs) = [].
Proof. induction gs as [|g gs IH]; [done|]. simpl. by rewrite IH. Qed.

(** Every run of [gather_loop] is a run of the relation; the log grows by
    exactly the scans of the run. *)
Lemma gather_loop_passes (fuel : nat) (n : Z) :
  forall avg log res log',
    gather_loop inp fuel n avg log = (res, log') ->
    exists gs, log' = log ++ map LaunchGather gs /\ passes inp n avg gs res.
Proof.
  induction fuel as [|fuel IH]; intros avg log res log' Hrun.
  - simpl in Hrun. injection Hrun as <- <-. exists [].
    split; [by rewrite app_nil_r | constructor].
  - rewrite gather_loop_S in Hrun. cbv zeta in Hrun.
    destruct (pass_fits n avg) eqn:Hfits.
    2:{ injection Hrun as <- <-. exists [].
        split; [by rewrite app_nil_r | by constructor]. }
    destruct (Z.eqb_spec n 0) as [Hn0|Hn0].
    { injection Hrun as <- <-. exists [fresh_gather_args inp n avg].
      split; [done | by constructor]. }
    destruct (tensor_le (consumed (fresh_gather_args inp n avg)) (avg * n))
      eqn:Hle.
    { injection Hrun as <- <-. exists [fresh_gather_args inp n avg].
      split; [done | by constructor]. }
    apply IH in Hrun as (gs & -> & Hgs).
    exists (fresh_gather_args inp n avg :: gs). split.
    + by rewrite <- app_assoc.
    + by constructor.
Qed.

(** The log of [forward]: the scans of the loop, then, when the loop
    accepted a pass, the refinement. *)
Lemma forward_passes (fuel : nat) res log :
  forward inp fuel [] = (res, log) ->
  shape (new_xyz inp) = [] /\ res = Raise IndexError /\ log = []
  \/ exists gs lres,
      passes inp (num_query_centers inp)
             (avg_length_of_neighbor_idxs inp) gs lres
      /\ match lres with
         | Ret p =>
             res = Ret (outputs inp (num_query_centers inp) p)
             /\ log = map LaunchGather gs
                      ++ [LaunchRefine
                            (refine_args inp (num_query_centers inp)
                                         (init_idxs inp) (init_dist2 inp) p)]
         | Raise e => res = Raise e /\ log = map LaunchGather gs
         | OutOfFuel => res = OutOfFuel /\ log = map LaunchGather gs
         end.
Proof.
  rewrite forward_run. unfold num_query_centers.
  destruct (shape (new_xyz inp)) as [|d s] eqn:Hs.
  { intros [= <- <-]. by left. }
  simpl.
  destruct (gather_loop inp fuel (Z.of_nat d)
              (avg_length_of_neighbor_idxs inp) []) as [lres log1] eqn:Hloop.
  apply gather_loop_passes in Hloop as (gs & -> & Hgs).
  simpl. intros Hrun. right. exists gs, lres. split; [done|].
  destruct lres as [p|e|]; injection Hrun as <- <-; done.
Qed.

End LoopFacts.

(** ** The estimate arithmetic *)

Lemma estimate_is_ceil (c n : Z) :
  0 < n -> is_ceil c n (c / n + py_int_of_bool (0 <? c mod n)).
Proof.
  intros Hn. unfold is_ceil, py_int_of_bool.
  pose proof (Z.div_mod c n ltac:(lia)) as Hdm.
  pose proof (Z.mod_pos_bound c n Hn) as Hmod.
  destruct (Z.ltb_spec 0 (c mod n)); nia.
Qed.

Lemma is_ceil_unique (c n a b : Z) :
  0 < n -> is_ceil c n a -> is_ceil c n b -> a = b.
Proof. unfold is_ceil. intros Hn Ha Hb. nia. Qed.

Lemma next_estimate_is_ceil (c n : Z) :
  0 < n -> is_ceil c n (next_estimate c n).
Proof.
  intros Hn. unfold next_estimate.
  rewrite new_estimate_nonzero by lia. by apply estimate_is_ceil.
Qed.

(** ** Facts about the runs of the loop *)

Section PassesFacts.
Context `{Dtype} `{Machine} `{ExtModule}.
Variable inp : Input.

Lemma capacity_fresh (n avg : Z) :
  0 <= avg * n -> capacity (fresh_gather_args inp n avg) = avg * n.
Proof.
  intros Hpos. unfold capacity, fresh_gather_args, gather_args. simpl.
  rewrite length_replicate. unfold numel. simpl. lia.
Qed.

Lemma avg_fresh (n avg : Z) :
  g_avg_length_of_neighbor_idxs (fresh_gather_args inp n avg) = avg.
Proof. reflexivity. Qed.

(** The counter an int32 tensor holds after a scan is an int32. *)
Lemma consumed_int32 (n avg : Z) :
  - 2 ^ 31 <= consumed (fresh_gather_args inp n avg) < 2 ^ 31.
Proof.
  unfold consumed, cumsum_after, mutate_counter, mutate, item.
  cbn [data fresh_gather_args gather_args g_cumsum].
  change (data (zeros 0 [1])) with [0].
  destruct (w_cumsum _) as [|y new]; [by vm_compute|].
  unfold written. cbn [map app length take hd]. apply wrap_int32_range.
Qed.

(** Every scan of a run is launched on new, zeroed buffers that the
    machine had room for: it is the launch determined by its own
    estimate. *)
Lemma passes_all_fresh (n avg : Z) gs res :
  passes inp n avg gs res -> 0 <= n ->
  Forall (fun g => g = fresh_gather_args inp n
                        (g_avg_length_of_neighbor_idxs g)
                   /\ 0 <= g_avg_length_of_neighbor_idxs g * n <= max_numel) gs.
Proof.
  intros Hp Hn.
  induction Hp as [| |avg Hfits|avg Hfits|avg gs res Hfits];
    repeat constructor; auto;
    apply pass_fits_iff in Hfits; rewrite ?avg_fresh; lia.
Qed.

Lemma passes_nil_not_ret (n avg : Z) p : ~ passes inp n avg [] (Ret p).
Proof. inversion 1. Qed.

(** A run that returns accepted its last scan, and only that one. *)
Lemma passes_ret (n avg : Z) gs p :
  passes inp n avg gs (Ret p) -> 0 <= n ->
  exists a gs0,
    gs = gs0 ++ [fresh_gather_args inp n a]
    /\ p = pass_state inp n a
    /\ pass_fits n a = true /\ n <> 0
    /\ tensor_le (consumed (fresh_gather_args inp n a)) (a * n) = true.
Proof.
  intros Hp Hn. remember (Ret p) as res eqn:Hres.
  induction Hp as [| | |avg Hfits|avg gs res ? ? ? Hp IH]; try discriminate.
  - injection Hres as <-. by exists avg, [].
  - destruct (IH Hres) as (a & gs0 & -> & Hx).
    by exists a, (fresh_gather_args inp n avg :: gs0).
Qed.

(** A scan is accepted, by the comparison made in int32, exactly when it
    is the last one of a run that returns. *)
Lemma passes_accept_iff (n avg : Z) gs res (i : nat) g :
  passes inp n avg gs res -> 0 <= n -> n <> 0 ->
  gs !! i = Some g ->
  tensor_le (consumed g) (capacity g) = true
  <-> S i = length gs /\ exists p, res = Ret p.
Proof.
  intros Hp Hn0 Hn. revert i.
  induction Hp as [| | |avg Hfits ? Hle|avg gs res Hfits ? Hle Hp IH];
    intros i Hi; try done.
  - destruct i; [|done]. injection Hi as <-.
    apply pass_fits_iff in Hfits; [|done].
    rewrite capacity_fresh by lia. split; [eauto|done].
  - destruct i as [|i].
    + injection Hi as <-. apply pass_fits_iff in Hfits; [|done].
      rewrite capacity_fresh by lia. rewrite Hle. split; [done|].
      intros [Hlen [p ->]]. destruct gs; [|done].
      by apply passes_nil_not_ret in Hp.
    + simpl in Hi. rewrite IH by done. simpl. split; intros [? ?]; split; auto.
Qed.

(** Between two consecutive scans the first was refused by the comparison
    and the estimate is recomputed as the ceiling of its total over the
    number of centers. *)
Lemma passes_next (n avg : Z) gs res (i : nat) g g' :
  passes inp n avg gs res -> 0 <= n ->
  gs !! i = Some g -> gs !! S i = Some g' ->
  tensor_le (consumed g) (capacity g) = false
  /\ is_ceil (consumed g) n (g_avg_length_of_neighbor_idxs g')
  /\ capacity g' = g_avg_length_of_neighbor_idxs g' * n.
Proof.
  intros Hp Hn. revert i.
  induction Hp as [| | |avg|avg gs res Hfits ? Hle Hp IH]; intros i Hi Hi';
    try done; try (by destruct i).
  destruct i as [|i]; [|by eapply IH].
  injection Hi as <-. simpl in Hi'.
  apply pass_fits_iff in Hfits; [|done].
  rewrite capacity_fresh by lia. split; [done|].
  pose proof (next_estimate_is_ceil
                (consumed (fresh_gather_args inp n avg)) n ltac:(lia)) as Hc.
  pose proof (passes_all_fresh _ _ _ _ Hp Hn) as Hfresh.
  rewrite Forall_forall in Hfresh.
  destruct (Hfresh g') as [Hg' Hpos'].
  { by eapply (list_elem_of_lookup_2 _ 0%nat). }
  assert (g' = fresh_gather_args inp n
            (next_estimate (consumed (fresh_gather_args inp n avg)) n))
    as Heq.
  { inversion Hp; subst; simpl in Hi'; congruence. }
  rewrite Heq in Hpos' |- *. rewrite avg_fresh in Hpos' |- *.
  split; [done|]. rewrite capacity_fresh; lia.
Qed.

End PassesFacts.

(** ** Facts about [forward] *)

Section ForwardTrace.
Context `{Dtype} `{Machine} `{ExtModule}.
Variable inp : Input.

Lemma num_query_centers_nonneg : 0 <= num_query_centers inp.
Proof. unfold num_query_centers. lia. Qed.

(** The scans [forward] launched are a run of the loop from the given
    estimate; the refinement is launched once, after an accepted pass. *)
Lemma forward_trace (fuel : nat) res log :
  forward inp fuel [] = (res, log) ->
  shape (new_xyz inp) <> [] ->
  exists lres,
    passes inp (num_query_centers inp) (avg_length_of_neighbor_idxs inp)
           (gather_launches log) lres
    /\ match lres with
       | Ret p =>
           res = Ret (outputs inp (num_query_centers inp) p)
           /\ refine_launches log =
                [refine_args inp (num_query_centers inp)
                             (init_idxs inp) (init_dist2 inp) p]
       | Raise e => res = Raise e /\ refine_launches log = []
       | OutOfFuel => res = OutOfFuel /\ refine_launches log = []
       end.
Proof.
  intros Hrun Hshape.
  apply forward_passes in Hrun as [(Hs & _)|(gs & lres & Hp & Hres)]; [done|].
  exists lres.
  destruct lres as [p|e|]; destruct Hres as [-> ->];
    rewrite ?gather_launches_app, ?refine_launches_app,
            ?gather_launches_map, ?refine_launches_map; simpl;
    rewrite ?app_nil_r; done.
Qed.

(** A call that returns accepted the last scan it launched, over at
    least one query center, and refined once. *)
Lemma forward_ret (fuel : nat) out log :
  forward inp fuel [] = (Ret out, log) ->
  let n := num_query_centers inp in
  exists a gs0,
    gather_launches log = gs0 ++ [fresh_gather_args inp n a]
    /\ out = outputs inp n (pass_state inp n a)
    /\ refine_launches log =
         [refine_args inp n (init_idxs inp) (init_dist2 inp)
                      (pass_state inp n a)]
    /\ 0 <= a * n /\ 0 < n
    /\ consumed (fresh_gather_args inp n a) <= a * n
    /\ pass_fits n a = true
    /\ tensor_le (consumed (fresh_gather_args inp n a)) (a * n) = true.
Proof.
  intros Hrun n.
  assert (Hshape : shape (new_xyz inp) <> []).
  { intros Hs. rewrite forward_run, Hs in Hrun. done. }
  destruct (forward_trace fuel _ _ Hrun Hshape) as (lres & Hp & Hres).
  destruct lres as [p|e|]; [|by destruct Hres..].
  destruct Hres as [[= ->] Hr].
  pose proof num_query_centers_nonneg as Hn.
  destruct (passes_ret inp _ _ _ _ Hp Hn)
    as (a & gs0 & Hgs & -> & Hfits & Hn0 & Hle).
  exists a, gs0. pose proof Hfits as Hpos. apply pass_fits_iff in Hpos; [|done].
  pose proof Hle as Hc. apply tensor_le_true in Hc; [|lia].
  subst n. repeat split; try done; lia.
Qed.

Lemma final_estimate_outputs (n : Z) (p : PassState) :
  final_estimate (outputs inp n p) = ps_avg_length_of_neighbor_idxs p.
Proof. reflexivity. Qed.

End ForwardTrace.

(** ** The loop under a scan that reports the same total on every pass *)

Section StableScan.
Context `{Dtype} `{Machine} `{ExtModule}.
Variable inp : Input.

(** When the recomputed capacity is below [2^31], the comparison in int32
    accepts the pass that runs with the recomputed estimate. *)
Lemma recomputed_estimate_accepted (n c : Z) :
  1 <= n -> 0 <= next_estimate c n * n < 2 ^ 31 ->
  tensor_le c (next_estimate c n * n) = true.
Proof.
  intros Hn Hcap. rewrite tensor_le_small by done.
  pose proof (next_estimate_is_ceil c n ltac:(lia)) as Hceil.
  unfold is_ceil in Hceil. apply Z.leb_le. lia.
Qed.

Lemma gather_loop_stable (fuel : nat) (n avg c : Z) (log : list Launch) :
  1 <= n ->
  (forall a, consumed (fresh_gather_args inp n a) = c) ->
  next_estimate c n * n < 2 ^ 31 ->
  gather_loop inp (S (S fuel)) n avg log =
    if pass_fits n avg
    then if tensor_le c (avg * n)
         then (Ret (pass_state inp n avg),
               log ++ [LaunchGather (fresh_gather_args inp n avg)])
         else if pass_fits n (next_estimate c n)
              then (Ret (pass_state inp n (next_estimate c n)),
                    (log ++ [LaunchGather (fresh_gather_args inp n avg)])
                    ++ [LaunchGather
                          (fresh_gather_args inp n (next_estimate c n))])
              else (Raise (pass_alloc_error n (next_estimate c n)),
                    log ++ [LaunchGather (fresh_gather_args inp n avg)])
    else (Raise (pass_alloc_error n avg), log).
Proof.
  intros Hn Hc Hcap. rewrite gather_loop_S. cbv zeta. rewrite Hc.
  destruct (pass_fits n avg); [|done].
  destruct (Z.eqb_spec n 0); [lia|].
  destruct (tensor_le c (avg * n)); [done|].
  rewrite gather_loop_S. cbv zeta. rewrite Hc.
  destruct (pass_fits n (next_estimate c n)) eqn:Hfits; [|done].
  destruct (Z.eqb_spec n 0); [lia|].
  apply pass_fits_iff in Hfits; [|lia].
  by rewrite recomputed_estimate_accepted by lia.
Qed.

End StableScan.

(** ** C1: the retry loop *)

(** C1, as the code has it.  The loop compares the int32 counter with the
    capacity converted to int32, so the claim needs the recomputed capacity
    to be below [2^31].  With at least one query center, a gather scan that
    reports the same consumed total [c] on every pass, and the recomputed
    capacity (ceiling of [c] over the centers, times the centers) below
    [2^31], [forward] does not run out of rounds once it is given two: it
    launches at most two scans, and it returns whenever the buffers of the
    passes can be allocated.  Between two consecutive scans the first one
    was refused by the comparison (so it overflowed, when its capacity is
    below [2^31]), the estimate of the second is the ceiling of the
    consumed total over the number of centers, and the capacity of the
    second, estimate times centers, is at least that total. *)
Theorem retry_loop_terminates `{Dtype} `{Machine} `{ExtModule}
    (inp : Input) (c : Z) (fuel : nat) :
  1 <= num_query_centers inp ->
  (forall avg,
     consumed (fresh_gather_args inp (num_query_centers inp) avg) = c) ->
  next_estimate c (num_query_centers inp) * num_query_centers inp < 2 ^ 31 ->
  (2 <= fuel)%nat ->
  exists res log,
    forward inp fuel [] = (res, log)
    /\ res <> OutOfFuel
    /\ (pass_fits (num_query_centers inp)
                  (avg_length_of_neighbor_idxs inp) = true ->
        pass_fits (num_query_centers inp)
                  (next_estimate c (num_query_centers inp)) = true ->
        exists out, res = Ret out)
    /\ (length (gather_launches log) <= 2)%nat
    /\ forall (i : nat) g g',
         gather_launches log !! i = Some g ->
         gather_launches log !! S i = Some g' ->
         tensor_le (consumed g) (capacity g) = false
         /\ (capacity g < 2 ^ 31 -> capacity g < consumed g)
         /\ is_ceil (consumed g) (num_query_centers inp)
                    (g_avg_length_of_neighbor_idxs g')
         /\ capacity g' =
              g_avg_length_of_neighbor_idxs g' * num_query_centers inp
         /\ consumed g <= capacity g'.
Proof.
  intros Hn Hc Hcap Hfuel.
  destruct (forward inp fuel []) as [res log] eqn:Hrun.
  exists res, log. split; [done|].
  assert (Hshape : shape (new_xyz inp) <> []).
  { intros Hs. unfold num_query_centers in Hn. rewrite Hs in Hn.
    simpl in Hn. lia. }
  assert (Hnext : forall (i : nat) g g',
             gather_launches log !! i = Some g ->
             gather_launches log !! S i = Some g' ->
             tensor_le (consumed g) (capacity g) = false
             /\ (capacity g < 2 ^ 31 -> capacity g < consumed g)
             /\ is_ceil (consumed g) (num_query_centers inp)
                        (g_avg_length_of_neighbor_idxs g')
             /\ capacity g' =
                  g_avg_length_of_neighbor_idxs g' * num_query_centers inp
             /\ consumed g <= capacity g').
  { intros i g g' Hi Hi'.
    destruct (forward_trace inp fuel res log Hrun Hshape) as (lres & Hp & _).
    destruct (passes_next inp _ _ _ _ i g g' Hp ltac:(lia) Hi Hi')
      as (Hover & Hceil & Hfit).
    split; [done|]. split.
    { intros Hsmall. rewrite tensor_le_small in Hover.
      - apply Z.leb_gt in Hover. lia.
      - unfold capacity in *. lia. }
    split; [done|]. split; [done|].
    rewrite Hfit. unfold is_ceil in Hceil. lia. }
  destruct fuel as [|[|fuel]]; [lia|lia|].
  rewrite forward_run in Hrun.
  unfold num_query_centers in *.
  destruct (shape (new_xyz inp)) as [|d s]; [done|]. cbn [hd] in *.
  rewrite (gather_loop_stable inp fuel (Z.of_nat d) _ c) in Hrun by done.
  destruct (pass_fits (Z.of_nat d) (avg_length_of_neighbor_idxs inp)).
  2:{ injection Hrun as <- <-.
      refine (conj _ (conj _ (conj _ Hnext))); [done|done|simpl; lia]. }
  destruct (tensor_le c (avg_length_of_neighbor_idxs inp * Z.of_nat d)).
  { injection Hrun as <- <-.
    refine (conj _ (conj _ (conj _ Hnext))); [done|intros; eauto|simpl; lia]. }
  destruct (pass_fits (Z.of_nat d) (next_estimate c (Z.of_nat d)));
    injection Hrun as <- <-;
    (refine (conj _ (conj _ (conj _ Hnext)));
     [done|intros _ Hfits; eauto; done|simpl; lia]).
Qed.

(** ** C2: the recomputed estimate is the ceiling and covers the demand *)

(** C2.  For a consumed total [c >= 0] and [n > 0] query centers the
    expression [c // n + int(c % n > 0)] evaluates, without raising, to the
    ceiling of [c / n].  Hence when [forward] returns, the estimate it
    returns is the ceiling of the consumed total of the accepted pass (its
    last scan) over the number of query centers, and that estimate times
    the number of query centers is at least the consumed total. *)
Theorem estimate_is_ceiling_and_covers `{Dtype} `{Machine} `{ExtModule}
    (inp : Input) :
  (forall c n : Z,
     0 <= c -> 0 < n ->
     new_estimate c n = inr (c / n + py_int_of_bool (0 <? c mod n))
     /\ is_ceil c n (c / n + py_int_of_bool (0 <? c mod n)))
  /\ (forall (fuel : nat) out log,
        forward inp fuel [] = (Ret out, log) ->
        exists g,
          last (gather_launches log) = Some g
          /\ consumed g <= capacity g
          /\ is_ceil (consumed g) (num_query_centers inp) (final_estimate out)
          /\ consumed g <= final_estimate out * num_query_centers inp).
Proof.
  split.
  - intros c n Hc Hn. split.
    + apply new_estimate_nonzero. lia.
    + by apply estimate_is_ceil.
  - intros fuel out log Hrun.
    destruct (forward_ret inp fuel out log Hrun)
      as (a & gs0 & Hgs & -> & _ & Hpos & Hn & Hfit & _).
    exists (fresh_gather_args inp (num_query_centers inp) a).
    rewrite Hgs, last_snoc, capacity_fresh, final_estimate_outputs by done.
    simpl.
    pose proof (next_estimate_is_ceil
      (consumed (fresh_gather_args inp (num_query_centers inp) a))
      (num_query_centers inp) Hn) as Hceil.
    repeat split; try done; apply Hceil.
Qed.

(** ** The candidates handed to the refinement *)

Lemma length_py_slice_to {A : Type} (l : list A) (k : Z) :
  0 <= k <= Z.of_nat (length l) ->
  Z.of_nat (length (py_slice_to l k)) = k.
Proof.
  intros Hk. unfold py_slice_to.
  destruct (Z.ltb_spec k 0); [lia|]. rewrite length_take. lia.
Qed.

Lemma take_written (m k : nat) (ws : list Z) :
  (k <= m)%nat ->
  take k (written (replicate m 0) ws)
  = take k (ws ++ replicate (k - length ws) 0).
Proof.
  intros Hk. apply list_eq. intros i.
  destruct (decide (i < k)%nat) as [Hi|Hi].
  - rewrite !lookup_take_lt by done.
    destruct (decide (i < length ws)%nat) as [Hw|Hw].
    + rewrite lookup_written_lt by (rewrite ?length_replicate; lia).
      by rewrite lookup_app_l.
    + rewrite lookup_written_ge, lookup_app_r by lia.
      rewrite !lookup_replicate_2 by lia. done.
  - by rewrite !lookup_take_ge by lia.
Qed.

Section Candidates.
Context `{Dtype} `{ExtModule}.
Variable inp : Input.

(** The buffer of a pass that fits, cut at the consumed total. *)
Lemma accepted_candidates (n a : Z) :
  let g := fresh_gather_args inp n a in
  let ws := w_stack_neighbor_idxs (stack_query_local_neighbor_idxs g) in
  0 <= consumed g <= a * n ->
  py_slice_to (data (stack_after g)) (consumed g)
  = take (Z.to_nat (consumed g))
         (ws ++ replicate (Z.to_nat (consumed g) - length ws) 0).
Proof.
  intros g ws [Hc Hfit]. unfold py_slice_to.
  destruct (Z.ltb_spec (consumed g) 0); [lia|].
  unfold stack_after, mutate. cbn [data]. subst g. cbn [data zeros
    g_stack_neighbor_idxs fresh_gather_args gather_args].
  apply take_written. unfold numel. simpl. lia.
Qed.

End Candidates.

(** ** C3: capacity, acceptance and truncation *)

(** C3, as the code has it.  In a call of [forward], every scan is
    launched with a candidate buffer whose capacity is the estimate of
    that pass times the number of query centers.  With query centers
    present, a pass is the accepted one (the last scan of a call that
    returns) exactly when the int32 counter is at most the capacity
    converted to int32; for a capacity below [2^31] that is exactly when
    it fits its capacity (consumed <= capacity, a tie included).  On
    acceptance the refiner receives the first [consumed] entries of what
    the accepted scan stored, in order (followed by zeros of the
    allocation where the scan stored fewer than it counted): exactly
    [consumed] entries. *)
Theorem capacity_and_acceptance `{Dtype} `{Machine} `{ExtModule}
    (inp : Input) (fuel : nat) res log :
  forward inp fuel [] = (res, log) ->
  (forall g, g ∈ gather_launches log ->
     capacity g = g_avg_length_of_neighbor_idxs g * num_query_centers inp)
  /\ (num_query_centers inp <> 0 ->
      forall (i : nat) g,
        gather_launches log !! i = Some g ->
        (tensor_le (consumed g) (capacity g) = true
         <-> S i = length (gather_launches log) /\ exists out, res = Ret out)
        /\ (capacity g < 2 ^ 31 ->
            consumed g <= capacity g
            <-> S i = length (gather_launches log)
                /\ exists out, res = Ret out))
  /\ (forall out,
        res = Ret out ->
        exists g r,
          last (gather_launches log) = Some g
          /\ refine_launches log = [r]
          /\ consumed g <= capacity g
          /\ (0 <= consumed g ->
              let ws := w_stack_neighbor_idxs
                          (stack_query_local_neighbor_idxs g) in
              data (r_stack_neighbor_idxs r)
              = take (Z.to_nat (consumed g))
                     (ws ++ replicate (Z.to_nat (consumed g) - length ws) 0)
              /\ Z.of_nat (length (data (r_stack_neighbor_idxs r)))
                 = consumed g)).
Proof.
  intros Hrun.
  destruct (decide (shape (new_xyz inp) = [])) as [Hs|Hshape].
  { rewrite forward_run, Hs in Hrun. injection Hrun as <- <-.
    split; [|split]; [by intros g Hg%elem_of_nil|by intros _ [|i] g|done]. }
  destruct (forward_trace inp fuel res log Hrun Hshape) as (lres & Hp & Hres).
  pose proof (num_query_centers_nonneg inp) as Hn0.
  split; [|split].
  - intros g Hg.
    pose proof (passes_all_fresh inp _ _ _ _ Hp Hn0) as Hfresh.
    rewrite Forall_forall in Hfresh. destruct (Hfresh g Hg) as [Hfr Hpos].
    rewrite Hfr at 1. rewrite capacity_fresh; lia.
  - intros Hn i g Hi.
    assert (Hiff : tensor_le (consumed g) (capacity g) = true
                   <-> S i = length (gather_launches log)
                       /\ exists out, res = Ret out).
    { rewrite (passes_accept_iff inp _ _ _ _ i g Hp Hn0 Hn Hi).
      split; intros [Hlen [x Hx]]; (split; [done|]); subst.
      + destruct Hres as [-> _]. eauto.
      + destruct lres as [p|e|]; [eauto|by destruct Hres..]. }
    split; [done|]. intros Hsmall. rewrite <- Hiff.
    rewrite tensor_le_small by (unfold capacity in *; lia).
    symmetry. apply Z.leb_le.
  - intros out ->.
    destruct (forward_ret inp fuel out log Hrun)
      as (a & gs0 & Hgs & -> & Hr & Hpos & Hn & Hfit & _).
    eexists _, _. rewrite Hgs, last_snoc, Hr.
    split; [done|]. split; [done|].
    split; [by rewrite capacity_fresh|].
    intros Hc ws. cbn [r_stack_neighbor_idxs refine_args data].
    cbn [ps_stack_neighbor_idxs ps_cumsum pass_state].
    fold (consumed (fresh_gather_args inp (num_query_centers inp) a)).
    rewrite (accepted_candidates inp (num_query_centers inp) a) by lia.
    split; [done|]. rewrite length_take, length_app, length_replicate. lia.
Qed.

(** ** C6: every pass starts from new, zeroed buffers *)

(** C6.  Every scan [forward] launches, the first one and every retry,
    receives the launch determined by the input, the number of query
    centers and the estimate of that pass alone: a candidate buffer of
    zeros of the pass's capacity, a slice-record array of zeros, and the
    counter at zero.  Nothing a previous scan stored is in them. *)
Theorem every_pass_starts_fresh `{Dtype} `{Machine} `{ExtModule}
    (inp : Input) (fuel : nat) res log (g : GatherArgs) :
  forward inp fuel [] = (res, log) ->
  g ∈ gather_launches log ->
  g = fresh_gather_args inp (num_query_centers inp)
                        (g_avg_length_of_neighbor_idxs g)
  /\ data (g_stack_neighbor_idxs g) =
       replicate (Z.to_nat (g_avg_length_of_neighbor_idxs g
                            * num_query_centers inp)) 0
  /\ data (g_start_len g) =
       replicate (Z.to_nat (num_query_centers inp * 2)) 0
  /\ data (g_cumsum g) = [0].
Proof.
  intros Hrun Hg.
  destruct (decide (shape (new_xyz inp) = [])) as [Hs|Hshape].
  { rewrite forward_run, Hs in Hrun. injection Hrun as <- <-.
    by apply elem_of_nil in Hg. }
  destruct (forward_trace inp fuel res log Hrun Hshape) as (lres & Hp & _).
  pose proof (passes_all_fresh inp _ _ _ _ Hp (num_query_centers_nonneg inp))
    as Hfresh.
  rewrite Forall_forall in Hfresh. destruct (Hfresh g Hg) as [Hfr _].
  split; [done|]. rewrite Hfr. simpl. unfold numel. simpl.
  repeat split; f_equal; lia.
Qed.

(** ** C4: a converged estimate is accepted at once *)

Lemma fresh_gather_args_with_estimate (inp : Input) (e n avg : Z) :
  fresh_gather_args (with_estimate inp e) n avg = fresh_gather_args inp n avg.
Proof. reflexivity. Qed.

Section Rerun.
Context `{Dtype} `{Machine} `{ExtModule}.
Variable inp : Input.

(** The counter and the slice records after a scan are what the scan
    stored into the zeroed counter and slice-record array. *)
Lemma consumed_of_stores (n avg avg' : Z) :
  w_cumsum (stack_query_local_neighbor_idxs (fresh_gather_args inp n avg))
  = w_cumsum (stack_query_local_neighbor_idxs (fresh_gather_args inp n avg')) ->
  consumed (fresh_gather_args inp n avg)
  = consumed (fresh_gather_args inp n avg').
Proof.
  intros Hw. unfold consumed, cumsum_after.
  cbn [g_cumsum fresh_gather_args gather_args]. by rewrite Hw.
Qed.

Lemma start_len_of_stores (n avg avg' : Z) :
  w_start_len (stack_query_local_neighbor_idxs (fresh_gather_args inp n avg))
  = w_start_len
      (stack_query_local_neighbor_idxs (fresh_gather_args inp n avg')) ->
  start_len_after (fresh_gather_args inp n avg)
  = start_len_after (fresh_gather_args inp n avg').
Proof.
  intros Hw. unfold start_len_after.
  cbn [g_start_len fresh_gather_args gather_args]. by rewrite Hw.
Qed.

(** A pass whose buffers can be allocated and whose counter the
    comparison accepts ends the call, whatever the fuel left. *)
Lemma forward_accepts_first (fuel : nat) (d : nat) (s : list nat) :
  shape (new_xyz inp) = d :: s ->
  let n := Z.of_nat d in
  let a := avg_length_of_neighbor_idxs inp in
  n <> 0 -> pass_fits n a = true ->
  tensor_le (consumed (fresh_gather_args inp n a)) (a * n) = true ->
  forward inp (S fuel) []
  = (Ret (outputs inp n (pass_state inp n a)),
     [LaunchGather (fresh_gather_args inp n a);
      LaunchRefine (refine_args inp n (init_idxs inp) (init_dist2 inp)
                                (pass_state inp n a))]).
Proof.
  intros Hs n a Hn Hfits Hle. rewrite forward_run, Hs.
  rewrite gather_loop_S. cbv zeta. fold n a. rewrite Hfits.
  destruct (Z.eqb_spec n 0); [done|]. by rewrite Hle.
Qed.

(** A pass that is refused and whose recomputed estimate is the one it
    ran with is repeated for as long as there is fuel. *)
Lemma gather_loop_stuck (fuel : nat) (n avg : Z) (log : list Launch) :
  n <> 0 -> pass_fits n avg = true ->
  tensor_le (consumed (fresh_gather_args inp n avg)) (avg * n) = false ->
  next_estimate (consumed (fresh_gather_args inp n avg)) n = avg ->
  gather_loop inp fuel n avg log
  = (OutOfFuel,
     log ++ replicate fuel (LaunchGather (fresh_gather_args inp n avg))).
Proof.
  intros Hn Hfits Hle Hsame. revert log.
  induction fuel as [|fuel IH]; intros log.
  - simpl. by rewrite app_nil_r.
  - rewrite gather_loop_S. cbv zeta. rewrite Hfits, Hle, Hsame.
    destruct (Z.eqb_spec n 0); [done|].
    rewrite IH, <- app_assoc. reflexivity.
Qed.

Lemma gather_launches_replicate (k : nat) (g : GatherArgs) :
  gather_launches (replicate k (LaunchGather g)) = replicate k g.
Proof. induction k as [|k IH]; [done|]. simpl. by rewrite IH. Qed.

Lemma gather_launches_cons (g : GatherArgs) (log : list Launch) :
  gather_launches (LaunchGather g :: log) = g :: gather_launches log.
Proof. reflexivity. Qed.

(** A call whose first pass is refused and recomputes its own estimate
    never leaves the loop. *)
Lemma forward_stuck (fuel : nat) (d : nat) (s : list nat) :
  shape (new_xyz inp) = d :: s ->
  let n := Z.of_nat d in
  let a := avg_length_of_neighbor_idxs inp in
  n <> 0 -> pass_fits n a = true ->
  tensor_le (consumed (fresh_gather_args inp n a)) (a * n) = false ->
  next_estimate (consumed (fresh_gather_args inp n a)) n = a ->
  forward inp fuel []
  = (OutOfFuel, replicate fuel (LaunchGather (fresh_gather_args inp n a))).
Proof.
  intros Hs n a Hn Hfits Hle Hsame. rewrite forward_run, Hs. fold n a.
  by rewrite (gather_loop_stuck fuel n a [] Hn Hfits Hle Hsame).
Qed.

(** The same when it is the second pass that recomputes its own
    estimate. *)
Lemma forward_refused_then_stuck (fuel : nat) (d : nat) (s : list nat)
    (a1 : Z) :
  shape (new_xyz inp) = d :: s ->
  let n := Z.of_nat d in
  let a := avg_length_of_neighbor_idxs inp in
  n <> 0 -> pass_fits n a = true ->
  tensor_le (consumed (fresh_gather_args inp n a)) (a * n) = false ->
  next_estimate (consumed (fresh_gather_args inp n a)) n = a1 ->
  pass_fits n a1 = true ->
  tensor_le (consumed (fresh_gather_args inp n a1)) (a1 * n) = false ->
  next_estimate (consumed (fresh_gather_args inp n a1)) n = a1 ->
  forward inp (S fuel) []
  = (OutOfFuel,
     LaunchGather (fresh_gather_args inp n a)
     :: replicate fuel (LaunchGather (fresh_gather_args inp n a1))).
Proof.
  intros Hs n a Hn Hfits Hle Hnext Hfits1 Hle1 Hsame.
  rewrite forward_run, Hs. fold n a. rewrite gather_loop_S. cbv zeta.
  rewrite Hfits, Hle, Hnext. destruct (Z.eqb_spec n 0); [done|].
  by rewrite (gather_loop_stuck fuel n a1 _ Hn Hfits1 Hle1 Hsame).
Qed.

(** A call whose first pass is refused and whose second pass is
    accepted. *)
Lemma forward_two_passes (fuel : nat) (d : nat) (s : list nat) (a1 : Z) :
  shape (new_xyz inp) = d :: s ->
  let n := Z.of_nat d in
  let a := avg_length_of_neighbor_idxs inp in
  n <> 0 -> pass_fits n a = true ->
  tensor_le (consumed (fresh_gather_args inp n a)) (a * n) = false ->
  next_estimate (consumed (fresh_gather_args inp n a)) n = a1 ->
  pass_fits n a1 = true ->
  tensor_le (consumed (fresh_gather_args inp n a1)) (a1 * n) = true ->
  forward inp (S (S fuel)) []
  = (Ret (outputs inp n (pass_state inp n a1)),
     [LaunchGather (fresh_gather_args inp n a);
      LaunchGather (fresh_gather_args inp n a1);
      LaunchRefine (refine_args inp n (init_idxs inp) (init_dist2 inp)
                                (pass_state inp n a1))]).
Proof.
  intros Hs n a Hn Hfits Hle Hnext Hfits1 Hle1.
  rewrite forward_run, Hs. fold n a. rewrite gather_loop_S. cbv zeta.
  rewrite Hfits, Hle, Hnext. destruct (Z.eqb_spec n 0); [done|].
  rewrite gather_loop_S. cbv zeta. rewrite Hfits1, Hle1.
  destruct (Z.eqb_spec n 0); [done|]. reflexivity.
Qed.

End Rerun.

(** C4, as the code has it.  The claim needs the capacity of the rerun
    (returned estimate times query centers) to be below [2^31], where the
    int32 comparison of line 78 is the comparison of the numbers.  Let a
    call of [forward] have returned an estimate with that property, and
    let the gather scan be deterministic in that the counter (a count, so
    not negative) and the slice records it stores do not depend on the
    estimate and the candidate buffer it is launched with.  Then the same
    call with the returned estimate as initial estimate launches one scan
    and accepts it, however many rounds it is allowed: that pass has the
    consumed total and the slice records of the accepted pass of the first
    call, the refinement receives those slice records, and the estimate
    returned is again the same. *)
Theorem converged_estimate_is_idempotent `{Dtype} `{Machine} `{ExtModule}
    (inp : Input) (fuel fuel' : nat) out log :
  forward inp fuel [] = (Ret out, log) ->
  (forall avg avg',
     w_cumsum (stack_query_local_neighbor_idxs
                 (fresh_gather_args inp (num_query_centers inp) avg))
     = w_cumsum (stack_query_local_neighbor_idxs
                   (fresh_gather_args inp (num_query_centers inp) avg'))
     /\ w_start_len (stack_query_local_neighbor_idxs
                       (fresh_gather_args inp (num_query_centers inp) avg))
        = w_start_len (stack_query_local_neighbor_idxs
                         (fresh_gather_args inp (num_query_centers inp)
                                            avg'))) ->
  (forall avg,
     0 <= consumed (fresh_gather_args inp (num_query_centers inp) avg)) ->
  final_estimate out * num_query_centers inp < 2 ^ 31 ->
  exists g out' g' r',
    last (gather_launches log) = Some g
    /\ forward (with_estimate inp (final_estimate out)) (S fuel') []
       = (Ret out', [LaunchGather g'; LaunchRefine r'])
    /\ g' = fresh_gather_args inp (num_query_centers inp) (final_estimate out)
    /\ consumed g' = consumed g
    /\ consumed g' <= capacity g'
    /\ start_len_after g' = start_len_after g
    /\ r_start_len r' = start_len_after g
    /\ final_estimate out' = final_estimate out.
Proof.
  intros Hrun Hdet Hcount Hcap.
  destruct (forward_ret inp fuel out log Hrun)
    as (a & gs0 & Hgs & -> & _ & Hpos & Hn & Hfit & Hfits & _).
  set (n := num_query_centers inp) in *.
  set (e := final_estimate (outputs inp n (pass_state inp n a))) in *.
  assert (He : e = next_estimate (consumed (fresh_gather_args inp n a)) n)
    by reflexivity.
  pose proof (next_estimate_is_ceil (consumed (fresh_gather_args inp n a)) n Hn)
    as Hceil. rewrite <- He in Hceil. unfold is_ceil in Hceil.
  pose proof (Hcount a) as Hc.
  destruct (Hdet e a) as [Hsame Hslices].
  apply consumed_of_stores in Hsame. apply start_len_of_stores in Hslices.
  assert (Hshape : exists d s, shape (new_xyz inp) = d :: s /\ n = Z.of_nat d).
  { subst n. unfold num_query_centers in *.
    destruct (shape (new_xyz inp)) as [|d s]; [simpl in Hn; lia|]. eauto. }
  destruct Hshape as (d & s & Hs & Hd).
  assert (Hfits' : pass_fits n e = true).
  { apply pass_fits_iff in Hfits; [|lia]. apply pass_fits_iff; [lia|].
    assert (0 <= e <= a) by nia. nia. }
  exists (fresh_gather_args inp n a),
         (outputs (with_estimate inp e) n (pass_state (with_estimate inp e) n e)),
         (fresh_gather_args inp n e),
         (refine_args (with_estimate inp e) n (init_idxs (with_estimate inp e))
                      (init_dist2 (with_estimate inp e))
                      (pass_state (with_estimate inp e) n e)).
  split; [by rewrite Hgs, last_snoc|]. split.
  - rewrite (forward_accepts_first (with_estimate inp e) fuel' d s Hs);
      cbn [avg_length_of_neighbor_idxs with_estimate]; rewrite <- ?Hd;
      rewrite ?fresh_gather_args_with_estimate; try done; try lia.
    rewrite tensor_le_small by nia. apply Z.leb_le. lia.
  - split; [done|]. split; [done|].
    split; [rewrite capacity_fresh by nia; lia|].
    split; [done|]. split; [done|].
    rewrite final_estimate_outputs. simpl.
    rewrite !fresh_gather_args_with_estimate. by rewrite Hsame.
Qed.

(** ** C7: what happens to a call the specification calls invalid *)

(** C7, as the code has it.  [forward] checks none of its arguments.
    Whenever [new_xyz] has a first dimension and the buffers of the first
    pass can be allocated, the first scan is launched on the arguments as
    they were given, the batch counts, the radius, the number of grid
    samples and the estimate (a zero one too) included.  Of the inputs
    the claim lists only a negative initial estimate (over at least one
    query center) stops the call before the first scan: torch refuses the
    negative buffer size.  A call that launches nothing returns
    nothing. *)
Theorem unchecked_call_reaches_scan `{Dtype} `{Machine} `{ExtModule}
    (inp : Input) (fuel : nat) res log :
  forward inp (S fuel) [] = (res, log) ->
  (shape (new_xyz inp) <> [] ->
   pass_fits (num_query_centers inp) (avg_length_of_neighbor_idxs inp) = true ->
   head log = Some (LaunchGather
                      (fresh_gather_args inp (num_query_centers inp)
                         (avg_length_of_neighbor_idxs inp))))
  /\ (1 <= num_query_centers inp ->
      - 2 ^ 63 <= avg_length_of_neighbor_idxs inp * num_query_centers inp ->
      avg_length_of_neighbor_idxs inp < 0 ->
      res = Raise RuntimeError /\ log = [])
  /\ (log = [] -> exists e, res = Raise e).
Proof.
  rewrite forward_run. unfold num_query_centers.
  destruct (shape (new_xyz inp)) as [|d s].
  { intros [= <- <-]. split; [done|]. split; [simpl; lia|eauto]. }
  cbn [hd]. rewrite gather_loop_S. cbv zeta.
  destruct (pass_fits (Z.of_nat d) (avg_length_of_neighbor_idxs inp))
    eqn:Hfits.
  2:{ intros [= <- <-]. split; [done|]. split; [|eauto].
      intros Hn Hlow Hneg.
      destruct (pass_alloc_error_negative
                  (Z.of_nat d) (avg_length_of_neighbor_idxs inp)
                  ltac:(nia)) as [_ ->].
      done. }
  assert (Hnot : 1 <= Z.of_nat d ->
                 - 2 ^ 63 <= avg_length_of_neighbor_idxs inp * Z.of_nat d ->
                 avg_length_of_neighbor_idxs inp < 0 ->
                 forall (r : outcome (Tensor float * Tensor Z * Tensor Z)) l,
                   r = Raise RuntimeError /\ l = @nil Launch).
  { intros Hn _ Hneg. apply pass_fits_iff in Hfits; [|lia]. nia. }
  destruct (Z.of_nat d =? 0).
  { intros [= <- <-]. split; [done|]. split; [auto|done]. }
  destruct (tensor_le _ _).
  { intros [= <- <-]. split; [done|]. split; [auto|done]. }
  destruct (gather_loop inp fuel _ _ _) as [lres log1] eqn:Hloop.
  apply gather_loop_passes in Hloop as (gs & -> & _).
  simpl. intros Hrun.
  assert (exists rest,
            log = LaunchGather
                    (fresh_gather_args inp (Z.of_nat d)
                       (avg_length_of_neighbor_idxs inp)) :: rest)
    as [rest ->].
  { destruct lres; injection Hrun as <- <-; eauto. }
  split; [done|]. split; [auto|done].
Qed.

(** ** C9: no query center *)

(** C9.  When [new_xyz] has zero rows, a call of [forward] (given at least
    one round of the loop) returns no result: the first scan is launched
    on empty buffers, and recomputing the estimate divides the consumed
    total by zero, which raises [ZeroDivisionError]. *)
Theorem no_query_center_raises `{Dtype} `{Machine} `{ExtModule}
    (inp : Input) (fuel : nat) (s : list nat) :
  shape (new_xyz inp) = 0%nat :: s ->
  forward inp (S fuel) []
  = (Raise ZeroDivisionError,
     [LaunchGather
        (fresh_gather_args inp 0 (avg_length_of_neighbor_idxs inp))])
  /\ new_estimate
       (consumed (fresh_gather_args inp 0 (avg_length_of_neighbor_idxs inp)))
       (num_query_centers inp)
     = inl ZeroDivisionError.
Proof.
  intros Hs. split.
  - rewrite forward_run, Hs. rewrite gather_loop_S. cbv zeta.
    assert (Hfits : pass_fits (Z.of_nat 0)
                      (avg_length_of_neighbor_idxs inp) = true).
    { apply pass_fits_iff; [lia|]. pose proof max_numel_lower. lia. }
    rewrite Hfits. reflexivity.
  - unfold num_query_centers. by rewrite Hs.
Qed.

(** ** The square root of the dtype *)

Lemma shifted_refl (m : Z) : 0 <= m -> shifted 0 m m.
Proof. unfold shifted. simpl. lia. Qed.

Lemma shifted_trans (k1 k2 m m1 m2 : Z) :
  0 <= k1 -> 0 <= k2 ->
  shifted k1 m m1 -> shifted k2 m1 m2 -> shifted (k1 + k2) m m2.
Proof.
  unfold shifted. intros Hk1 Hk2 (H1 & H1l & H1u) (H2 & H2l & H2u).
  rewrite Z.pow_add_r by done.
  pose proof (Z.pow_pos_nonneg 2 k1 ltac:(lia) Hk1).
  pose proof (Z.pow_pos_nonneg 2 k2 ltac:(lia) Hk2).
  split; [done|]. nia.
Qed.

Lemma dyadic_leb_intro (m1 e1 m2 e2 t : Z) :
  t <= e1 -> t <= e2 ->
  m1 * 2 ^ (e1 - t) <= m2 * 2 ^ (e2 - t) ->
  dyadic_leb m1 e1 m2 e2 = true.
Proof.
  intros H1 H2 Hle. unfold dyadic_leb. apply Z.leb_le.
  set (u := Z.min e1 e2).
  replace (e1 - t) with ((e1 - u) + (u - t)) in Hle by lia.
  replace (e2 - t) with ((e2 - u) + (u - t)) in Hle by lia.
  rewrite !Z.pow_add_r in Hle by lia.
  pose proof (Z.pow_pos_nonneg 2 (u - t) ltac:(lia) ltac:(lia)). nia.
Qed.

Lemma dyadic_ltb_intro (m1 e1 m2 e2 t : Z) :
  t <= e1 -> t <= e2 ->
  m1 * 2 ^ (e1 - t) < m2 * 2 ^ (e2 - t) ->
  dyadic_ltb m1 e1 m2 e2 = true.
Proof.
  intros H1 H2 Hle. unfold dyadic_ltb. apply Z.ltb_lt.
  set (u := Z.min e1 e2).
  replace (e1 - t) with ((e1 - u) + (u - t)) in Hle by lia.
  replace (e2 - t) with ((e2 - u) + (u - t)) in Hle by lia.
  rewrite !Z.pow_add_r in Hle by lia.
  pose proof (Z.pow_pos_nonneg 2 (u - t) ltac:(lia) ltac:(lia)). nia.
Qed.

Section Sqrt.
Context `{Dtype}.

Lemma fsqrt_fzero : fsqrt fzero = fzero.
Proof. reflexivity. Qed.

Lemma shr_1_shifted (mrs : shr_record) :
  0 <= shr_m mrs -> shifted 1 (shr_m mrs) (shr_m (shr_1 mrs)).
Proof.
  destruct mrs as [m r s]. unfold shifted. simpl.
  destruct m as [|[p|p|]|[p|p|]]; simpl; lia.
Qed.

Lemma iter_pos_shr_1_shifted (p : positive) (mrs : shr_record) :
  0 <= shr_m mrs ->
  shifted (Z.pos p) (shr_m mrs) (shr_m (SpecFloat.iter_pos shr_1 p mrs)).
Proof.
  revert mrs. induction p as [p IH|p IH|]; intros mrs Hm; simpl.
  - pose proof (shr_1_shifted mrs Hm) as H1.
    pose proof (IH (shr_1 mrs) (proj1 H1)) as H2.
    pose proof (IH _ (proj1 H2)) as H3.
    replace (Z.pos p~1) with (1 + Z.pos p + Z.pos p) by lia.
    eapply shifted_trans; [lia|lia| |exact H3].
    eapply shifted_trans; [lia|lia|exact H1|exact H2].
  - pose proof (IH mrs Hm) as H2.
    pose proof (IH _ (proj1 H2)) as H3.
    replace (Z.pos p~0) with (Z.pos p + Z.pos p) by lia.
    eapply shifted_trans; [lia|lia|exact H2|exact H3].
  - by apply shr_1_shifted.
Qed.

(** Bringing a mantissa to the exponent of the format drops its lowest
    digits. *)
Lemma shr_fexp_shifted (m e : Z) (l : location) :
  0 <= m ->
  let k := Z.max 0 (fexp dt_prec dt_emax (Zdigits2 m + e) - e) in
  snd (shr_fexp dt_prec dt_emax m e l) = e + k
  /\ shifted k m (shr_m (fst (shr_fexp dt_prec dt_emax m e l))).
Proof.
  intros Hm k. subst k. unfold shr_fexp, shr.
  assert (Hrec : shr_m (shr_record_of_loc m l) = m) by (by destruct l as [|[]]).
  destruct (fexp dt_prec dt_emax (Zdigits2 m + e) - e) as [|p|p]; simpl.
  - rewrite Hrec. split; [lia|]. by apply shifted_refl.
  - split; [lia|]. rewrite <- Hrec at 1.
    apply iter_pos_shr_1_shifted. by rewrite Hrec.
  - rewrite Hrec. split; [lia|]. by apply shifted_refl.
Qed.

Lemma round_nearest_even_range (m : Z) (l : location) :
  m <= round_nearest_even m l <= m + 1.
Proof.
  destruct l as [|[]]; simpl; try lia. destruct (Z.even m); lia.
Qed.

(** Rounding [q * 2^e'] to the format gives a float of the sign asked
    for, and when it is finite, one that is less than a unit in its last
    place away from [q * 2^e'] and from [(q + 1) * 2^e']. *)
Lemma binary_round_aux_bracket (q e' : Z) (l : location) :
  0 <= q ->
  match binary_round_aux dt_prec dt_emax false q e' l with
  | S754_nan => False
  | S754_zero s | S754_infinity s => s = false
  | S754_finite s mr er =>
      s = false
      /\ exists P, 0 <= P /\ er = e' + P
                   /\ (Z.pos mr - 1) * 2 ^ P <= q
                   /\ q + 1 <= (Z.pos mr + 1) * 2 ^ P
  end.
Proof.
  intros Hq. unfold binary_round_aux.
  destruct (shr_fexp_shifted q e' l Hq) as [He1 H1].
  destruct (shr_fexp dt_prec dt_emax q e' l) as [mrs1 e1].
  cbn [fst snd] in He1, H1.
  set (k1 := Z.max 0 (fexp dt_prec dt_emax (Zdigits2 q + e') - e')) in *.
  pose proof (round_nearest_even_range (shr_m mrs1) (loc_of_shr_record mrs1))
    as Hr.
  set (m2 := round_nearest_even _ _) in *.
  assert (Hm2 : 0 <= m2) by (destruct H1; lia).
  destruct (shr_fexp_shifted m2 e1 loc_Exact Hm2) as [He3 H3].
  destruct (shr_fexp dt_prec dt_emax m2 e1 loc_Exact) as [mrs3 e3].
  cbn [fst snd] in He3, H3.
  set (k2 := Z.max 0 (fexp dt_prec dt_emax (Zdigits2 m2 + e1) - e1)) in *.
  destruct H1 as (Hm1 & H1l & H1u). destruct H3 as (Hm3 & H3l & H3u).
  destruct (shr_m mrs3) as [|mr|mr]; [done| |lia].
  destruct (e3 <=? dt_emax - dt_prec); [|done].
  split; [done|]. exists (k1 + k2).
  assert (0 <= k1) by lia. assert (0 <= k2) by lia.
  rewrite Z.pow_add_r by done.
  pose proof (Z.pow_pos_nonneg 2 k1 ltac:(lia) ltac:(lia)).
  pose proof (Z.pow_pos_nonneg 2 k2 ltac:(lia) ltac:(lia)).
  split; [lia|]. split; [lia|]. split; nia.
Qed.

(** The integer part of the computation: the floor of the square root of
    the mantissa brought to an even exponent. *)
Lemma SFsqrt_core_binary_spec (m : positive) (e : Z) :
  let '(q, e', l) := SFsqrt_core_binary dt_prec dt_emax (Z.pos m) e in
  0 <= q
  /\ e' = Z.min (fexp dt_prec dt_emax (Z.div2 (Zdigits2 (Z.pos m) + e + 1)))
                (Z.div2 e)
  /\ 0 <= e - 2 * e'
  /\ q * q <= Z.pos m * 2 ^ (e - 2 * e') < (q + 1) * (q + 1).
Proof.
  unfold SFsqrt_core_binary.
  set (e' := Z.min _ _). set (sh := e - 2 * e').
  assert (Hsh : 0 <= sh).
  { subst sh e'. pose proof (Z.div2_odd e) as Hodd.
    destruct (Z.odd e); simpl in Hodd; lia. }
  set (m' := match sh with
             | Z.pos _ => Z.shiftl (Z.pos m) sh
             | 0 => Z.pos m
             | Z.neg _ => 0
             end).
  assert (Hm' : m' = Z.pos m * 2 ^ sh).
  { subst m'. destruct sh as [|p|p] eqn:Hp; [simpl; lia| |lia].
    by rewrite Z.shiftl_mul_pow2. }
  assert (Hpos : 0 <= m').
  { rewrite Hm'. pose proof (Z.pow_pos_nonneg 2 sh ltac:(lia) Hsh). nia. }
  pose proof (Z.sqrtrem_spec m' Hpos) as Hs.
  destruct (Z.sqrtrem m') as [q r]. cbv beta iota. fold sh. rewrite <- Hm'.
  split; [|split; [done|split; [done|]]]; nia.
Qed.

(** The square root of a positive number of the dtype is not a NaN and
    not below zero; when it is finite it is within one unit in its last
    place of the square root of the number. *)
Lemma fsqrt_positive (m : positive) (e : Z) :
  match fsqrt (S754_finite false m e) with
  | S754_nan => False
  | S754_zero s | S754_infinity s => s = false
  | S754_finite s mr er => root_within_ulp (S754_finite s mr er) m e = true
  end.
Proof.
  unfold fsqrt. simpl.
  pose proof (SFsqrt_core_binary_spec m e) as Hcore.
  destruct (SFsqrt_core_binary dt_prec dt_emax (Z.pos m) e) as [[q e'] l].
  destruct Hcore as (Hq & _ & Hsh & Hlow & Hup).
  pose proof (binary_round_aux_bracket q e' l Hq) as Hr.
  destruct (binary_round_aux dt_prec dt_emax false q e' l)
    as [s|s| |s mr er]; try done.
  destruct Hr as (-> & P & HP & -> & Hl & Hu).
  unfold root_within_ulp. apply andb_true_iff.
  pose proof (Z.pow_pos_nonneg 2 P ltac:(lia) HP) as HpowP.
  assert (H2P : 2 ^ (2 * P) = 2 ^ P * 2 ^ P).
  { replace (2 * P) with (P + P) by lia. by rewrite Z.pow_add_r. }
  split.
  - apply (dyadic_leb_intro _ _ _ _ (2 * e')); [lia|lia|].
    replace (2 * (e' + P) - 2 * e') with (2 * P) by lia. rewrite H2P.
    assert (0 <= (Z.pos mr - 1) * 2 ^ P) by nia. nia.
  - apply (dyadic_ltb_intro _ _ _ _ (2 * e')); [lia|lia|].
    replace (2 * (e' + P) - 2 * e') with (2 * P) by lia. rewrite H2P. nia.
Qed.

(** The square root is a NaN (of an argument that is no number or is
    below zero), a zero, or a number of positive sign. *)
Lemma fsqrt_cases (x : float) :
  match fsqrt x with
  | S754_nan => fnonneg x = false
  | S754_zero s => True
  | S754_infinity s | S754_finite s _ _ => s = false
  end.
Proof.
  destruct x as [s|[|]| |[|] m e]; try done.
  pose proof (fsqrt_positive m e) as Hp.
  destruct (fsqrt (S754_finite false m e)) as [s|s| |[|] mr er]; done.
Qed.

(** No square root is below zero. *)
Lemma fsqrt_not_negative (x : float) : SFltb (fsqrt x) fzero = false.
Proof.
  pose proof (fsqrt_cases x) as Hc.
  destruct (fsqrt x) as [s|s| |s m e]; try done; by subst.
Qed.

(** The square root of a number that is not below zero is a number that
    is not below zero. *)
Lemma fsqrt_nonneg (x : float) : fnonneg x = true -> fnonneg (fsqrt x) = true.
Proof.
  intros Hx. pose proof (fsqrt_cases x) as Hc.
  destruct (fsqrt x) as [s|s| |s m e]; try done; try by subst.
  congruence.
Qed.

End Sqrt.

(** ** The square root of a number of the dtype is a number *)

Lemma digits2_pos_bounds (p : positive) :
  2 ^ (Z.pos (digits2_pos p) - 1) <= Z.pos p < 2 ^ Z.pos (digits2_pos p).
Proof.
  induction p as [p IH|p IH|]; simpl digits2_pos.
  - rewrite Pos2Z.inj_succ.
    replace (Z.succ (Z.pos (digits2_pos p)) - 1)
      with (Z.succ (Z.pos (digits2_pos p) - 1)) by lia.
    rewrite !Z.pow_succ_r by lia. lia.
  - rewrite Pos2Z.inj_succ.
    replace (Z.succ (Z.pos (digits2_pos p)) - 1)
      with (Z.succ (Z.pos (digits2_pos p) - 1)) by lia.
    rewrite !Z.pow_succ_r by lia. lia.
  - simpl. lia.
Qed.

Lemma Zdigits2_bounds (m : Z) :
  1 <= m -> 1 <= Zdigits2 m /\ 2 ^ (Zdigits2 m - 1) <= m < 2 ^ Zdigits2 m.
Proof.
  destruct m as [|p|p]; try lia. intros _. simpl.
  split; [lia|]. apply digits2_pos_bounds.
Qed.

Lemma Zdigits2_le (m k : Z) : 1 <= m -> 0 <= k -> m < 2 ^ k -> Zdigits2 m <= k.
Proof.
  intros Hm Hk Hlt. destruct (Zdigits2_bounds m Hm) as (Hd & Hl & _).
  assert (2 ^ (Zdigits2 m - 1) < 2 ^ k) as Hpow by lia.
  apply Z.pow_lt_mono_r_iff in Hpow; lia.
Qed.

Section SqrtFinite.
Context `{Dtype}.
Hypothesis Hformat : valid_format.

(** Rounding a mantissa that is not zero, at an exponent of the format
    and below the overflow threshold, gives a finite number. *)
Lemma binary_round_aux_finite (q e' : Z) (l : location) :
  1 <= q ->
  3 - dt_emax - dt_prec <= e' ->
  Z.max e' (Zdigits2 q + e' - dt_prec) + 1 <= dt_emax - dt_prec ->
  exists mr er,
    binary_round_aux dt_prec dt_emax false q e' l = S754_finite false mr er.
Proof.
  intros Hq Hmin Hmax. unfold valid_format in Hformat.
  unfold binary_round_aux.
  destruct (shr_fexp_shifted q e' l ltac:(lia)) as [He1 H1].
  destruct (shr_fexp dt_prec dt_emax q e' l) as [mrs1 e1].
  cbn [fst snd] in He1, H1.
  set (k1 := Z.max 0 (fexp dt_prec dt_emax (Zdigits2 q + e') - e')) in *.
  destruct (Zdigits2_bounds q Hq) as (Hdq & Hql & Hqu).
  assert (Hk1 : k1 = Z.max 0 (Zdigits2 q - dt_prec)).
  { subst k1. unfold fexp, emin. lia. }
  destruct H1 as (Hm1 & H1l & H1u).
  assert (Hm1' : 1 <= shr_m mrs1 < 2 ^ dt_prec).
  { destruct (Z.max_spec 0 (Zdigits2 q - dt_prec)) as [[Hlt Hk]|[Hge Hk]];
      rewrite Hk in Hk1.
    - replace (Zdigits2 q) with (k1 + dt_prec) in Hql, Hqu by lia.
      replace (k1 + dt_prec - 1) with (k1 + (dt_prec - 1)) in Hql by lia.
      rewrite Z.pow_add_r in Hql, Hqu by lia.
      pose proof (Z.pow_pos_nonneg 2 k1 ltac:(lia) ltac:(lia)).
      assert (0 < 2 ^ (dt_prec - 1)) by (apply Z.pow_pos_nonneg; lia).
      assert (0 < 2 ^ dt_prec) by (apply Z.pow_pos_nonneg; lia).
      split; nia.
    - rewrite Hk1 in H1l, H1u. simpl in H1l, H1u.
      assert (2 ^ Zdigits2 q <= 2 ^ dt_prec)
        by (apply Z.pow_le_mono_r; lia).
      lia. }
  pose proof (round_nearest_even_range (shr_m mrs1) (loc_of_shr_record mrs1))
    as Hr.
  set (m2 := round_nearest_even _ _) in *.
  assert (Hm2 : 1 <= m2 <= 2 ^ dt_prec) by lia.
  destruct (shr_fexp_shifted m2 e1 loc_Exact ltac:(lia)) as [He3 H3].
  destruct (shr_fexp dt_prec dt_emax m2 e1 loc_Exact) as [mrs3 e3].
  cbn [fst snd] in He3, H3.
  set (k2 := Z.max 0 (fexp dt_prec dt_emax (Zdigits2 m2 + e1) - e1)) in *.
  destruct (Zdigits2_bounds m2 ltac:(lia)) as (Hd2 & H2l & H2u).
  assert (Hd2' : Zdigits2 m2 <= dt_prec + 1).
  { apply Zdigits2_le; [lia|lia|]. rewrite Z.pow_add_r by lia.
    assert (0 < 2 ^ dt_prec) by (apply Z.pow_pos_nonneg; lia). lia. }
  assert (Hk2 : k2 = Z.max 0 (Zdigits2 m2 - dt_prec)).
  { subst k2. unfold fexp, emin. lia. }
  destruct H3 as (Hm3 & H3l & H3u).
  assert (Hm3' : 1 <= shr_m mrs3).
  { destruct (Z.max_spec 0 (Zdigits2 m2 - dt_prec)) as [[Hlt Hk]|[Hge Hk]];
      rewrite Hk in Hk2.
    - assert (Hk21 : k2 = 1) by lia. rewrite Hk21 in H3l, H3u.
      replace (Zdigits2 m2 - 1) with dt_prec in H2l by lia.
      assert (2 ^ 1 <= 2 ^ dt_prec) by (apply Z.pow_le_mono_r; lia).
      change (2 ^ 1) with 2 in *. lia.
    - rewrite Hk2 in H3l, H3u. simpl in H3l, H3u. lia. }
  destruct (shr_m mrs3) as [|mr|mr]; [lia| |lia].
  destruct (Z.leb_spec e3 (dt_emax - dt_prec)); [eauto|lia].
Qed.

(** The square root of a positive number of the dtype is a positive
    number of the dtype, within one unit in its last place of the square
    root of the number. *)
Lemma fsqrt_root (m : positive) (e : Z) :
  bounded dt_prec dt_emax m e = true ->
  root_within_ulp (fsqrt (S754_finite false m e)) m e = true.
Proof.
  intros Hb. pose proof (fsqrt_positive m e) as Hpos.
  assert (Hfin : exists mr er,
             fsqrt (S754_finite false m e) = S754_finite false mr er).
  { unfold fsqrt. simpl. unfold valid_format in Hformat.
    pose proof (SFsqrt_core_binary_spec m e) as Hcore.
    destruct (SFsqrt_core_binary dt_prec dt_emax (Z.pos m) e) as [[q e'] l].
    destruct Hcore as (Hq & He' & Hsh & Hlow & Hup).
    unfold bounded, canonical_mantissa in Hb.
    apply andb_true_iff in Hb as [Hcan Hemax].
    apply Z.eqb_eq in Hcan. apply Z.leb_le in Hemax.
    unfold fexp, emin in Hcan, He'.
    fold (Zdigits2 (Z.pos m)) in Hcan.
    destruct (Zdigits2_bounds (Z.pos m) ltac:(lia)) as (Hdm & Hml & Hmu).
    set (dm := Zdigits2 (Z.pos m)) in *.
    pose proof (Z.div2_odd e) as Hodd.
    pose proof (Z.div2_odd (dm + e + 1)) as HoddD.
    set (D := Z.div2 (dm + e + 1)) in *.
    pose proof (Z.pow_pos_nonneg 2 (e - 2 * e') ltac:(lia) Hsh) as Hpsh.
    assert (Hq1 : 1 <= q) by nia.
    destruct (Zdigits2_bounds q Hq1) as (Hdq & Hql & Hqu).
    assert (Hdq' : 2 * Zdigits2 q <= dm + (e - 2 * e') + 1).
    { assert (Hsq : 2 ^ (Zdigits2 q - 1) * 2 ^ (Zdigits2 q - 1)
                    < 2 ^ dm * 2 ^ (e - 2 * e')) by nia.
      rewrite <- !Z.pow_add_r in Hsq by lia.
      apply Z.pow_lt_mono_r_iff in Hsq; lia. }
    apply binary_round_aux_finite; [done| |];
      destruct (Z.odd e), (Z.odd (dm + e + 1)); simpl in Hodd, HoddD; lia. }
  destruct Hfin as (mr & er & Heq). by rewrite Heq in Hpos |- *.
Qed.

End SqrtFinite.

(** ** C5: the distances returned are square roots *)


(** ** The refinement of the specification *)

Lemma length_flat_map_blocks {A B : Type} (f : A -> list B) (b : nat)
    (l : list A) :
  (forall x, length (f x) = b) -> length (flat_map f l) = (length l * b)%nat.
Proof.
  intros Hb. induction l as [|x l IH]; [done|].
  simpl. rewrite length_app, Hb, IH. lia.
Qed.

(** Position [i * b + j] of a concatenation of blocks of length [b] is
    position [j] of block [i]. *)
Lemma lookup_flat_map_blocks {A B : Type} (f : A -> list B) (b : nat)
    (l : list A) (i j : nat) :
  (forall x, length (f x) = b) -> (j < b)%nat ->
  flat_map f l !! (i * b + j)%nat = l !! i ≫= fun x => f x !! j.
Proof.
  intros Hb Hj. revert i. induction l as [|x l IH]; intros i.
  - simpl. by rewrite lookup_nil.
  - destruct i as [|i]; simpl.
    + rewrite lookup_app_l; [done|]. rewrite Hb. lia.
    + rewrite lookup_app_r by (rewrite Hb; lia).
      rewrite Hb. replace (b + i * b + j - b)%nat with (i * b + j)%nat by lia.
      apply IH.
Qed.

Section Refinement.
Context `{Dtype}.
Variable far : float.

Lemma length_insert_by_dist (x : float * Z) (l : list (float * Z)) :
  length (insert_by_dist x l) = S (length l).
Proof.
  induction l as [|y l IH]; [done|]. simpl.
  destruct (SFltb (fst x) (fst y)); simpl; by rewrite ?IH.
Qed.

Lemma length_sorted (l : list (float * Z)) :
  length (foldr insert_by_dist [] l) = length l.
Proof.
  induction l as [|x l IH]; [done|].
  simpl. by rewrite length_insert_by_dist, IH.
Qed.

Lemma length_three_nn (a : RefineArgs) (c g : nat) :
  length (three_nn far a c g) = 3%nat.
Proof.
  unfold three_nn. rewrite length_take, length_app, length_replicate. lia.
Qed.

(** A slot beyond the candidates of the slice is unset. *)
Lemma three_nn_unset (a : RefineArgs) (c g k : nat) :
  (k < 3)%nat -> (length (candidate_slice a c) <= k)%nat ->
  three_nn far a c g !! k = Some (far, -1).
Proof.
  intros Hk Hlen. unfold three_nn.
  rewrite lookup_take_lt by done.
  rewrite lookup_app_r; rewrite length_sorted, length_map; [|done].
  apply lookup_replicate_2. lia.
Qed.

(** The slots the refinement stores, at their flat positions. *)
Lemma refine_scan_slot (a : RefineArgs) (c g k : nat) :
  (c < Z.to_nat (r_num_new_xyz a))%nat ->
  (g < Z.to_nat (r_num_total_grids a))%nat ->
  (k < 3)%nat ->
  w_new_xyz_grid_idxs (refine_scan far a)
    !! slot (Z.to_nat (r_num_total_grids a)) c g k
  = snd <$> three_nn far a c g !! k
  /\ w_new_xyz_grid_dist2 (refine_scan far a)
       !! slot (Z.to_nat (r_num_total_grids a)) c g k
     = fst <$> three_nn far a c g !! k.
Proof.
  intros Hc Hg Hk. unfold refine_scan. simpl.
  set (G := Z.to_nat (r_num_total_grids a)) in *.
  set (M := Z.to_nat (r_num_new_xyz a)) in *.
  assert (Hslots :
    flat_map (fun c => flat_map (three_nn far a c) (seq 0 G)) (seq 0 M)
      !! slot G c g k = three_nn far a c g !! k).
  { unfold slot.
    replace ((c * G + g) * 3 + k)%nat with (c * (G * 3) + (g * 3 + k))%nat
      by lia.
    rewrite (lookup_flat_map_blocks _ (G * 3)).
    - rewrite lookup_seq_lt by done. simpl.
      rewrite (lookup_flat_map_blocks _ 3) by (auto using length_three_nn).
      by rewrite lookup_seq_lt.
    - intros x. rewrite (length_flat_map_blocks _ 3), length_seq; [done|].
      apply length_three_nn.
    - nia. }
  by rewrite !list_lookup_fmap, Hslots.
Qed.

Lemma length_refine_scan (a : RefineArgs) :
  length (w_new_xyz_grid_idxs (refine_scan far a))
  = (Z.to_nat (r_num_new_xyz a) * (Z.to_nat (r_num_total_grids a) * 3))%nat
  /\ length (w_new_xyz_grid_dist2 (refine_scan far a))
     = (Z.to_nat (r_num_new_xyz a) * (Z.to_nat (r_num_total_grids a) * 3))%nat.
Proof.
  unfold refine_scan. simpl. rewrite !length_map.
  rewrite (length_flat_map_blocks _ (Z.to_nat (r_num_total_grids a) * 3)).
  - by rewrite length_seq.
  - intros c. rewrite (length_flat_map_blocks _ 3), length_seq; [done|].
    apply length_three_nn.
Qed.

End Refinement.

Section ForwardRefined.
Context `{Dtype} `{Machine} `{ExtModule}.
Variable far : float.
Hypothesis refine_is_spec :
  forall a, stack_query_three_nn_local_idxs a = refine_scan far a.
Variable inp : Input.

Lemma length_init_dist2 :
  length (data (init_idxs inp)) = length (data (init_dist2 inp)).
Proof. unfold init_idxs, fill_. simpl. by rewrite !length_replicate. Qed.

Lemma init_dist2_zero (k : nat) :
  (k < length (data (init_dist2 inp)))%nat ->
  data (init_dist2 inp) !! k = Some fzero
  /\ data (init_idxs inp) !! k = Some (-1).
Proof.
  intros Hk. split.
  - unfold init_dist2, zeros in *. simpl in *.
    rewrite length_replicate in Hk. by apply lookup_replicate_2.
  - unfold init_idxs, fill_. simpl. by apply lookup_replicate_2.
Qed.

(** What [forward] returns in each slot, with the refinement of the
    specification: the slot of [three_nn] where the refinement stores
    one, the initial contents elsewhere. *)
Lemma forward_refined (fuel : nat) out log r :
  forward inp fuel [] = (Ret out, log) ->
  r ∈ refine_launches log ->
  let M := Z.to_nat (num_query_centers inp) in
  let G := Z.to_nat (num_total_grids inp) in
  r_new_xyz_grid_dist2 r = init_dist2 inp
  /\ length (data (fst (fst out))) = length (data (init_dist2 inp))
  /\ (forall c g k : nat,
        (c < M)%nat -> (g < G)%nat -> (k < 3)%nat ->
        (slot G c g k < length (data (init_dist2 inp)))%nat ->
        data (snd (fst out)) !! slot G c g k
        = snd <$> three_nn far r c g !! k
        /\ data (fst (fst out)) !! slot G c g k
           = (fun s => fsqrt (fst s)) <$> three_nn far r c g !! k)
  /\ (forall pos : nat,
        (M * (G * 3) <= pos)%nat ->
        (pos < length (data (init_dist2 inp)))%nat ->
        data (snd (fst out)) !! pos = Some (-1)
        /\ data (fst (fst out)) !! pos = Some fzero).
Proof.
  intros Hrun Hr M G.
  destruct (forward_ret inp fuel out log Hrun)
    as (a & gs0 & _ & -> & Hrl & _).
  rewrite Hrl in Hr. apply list_elem_of_singleton in Hr as ->.
  set (r := refine_args _ _ _ _ _).
  assert (HM : Z.to_nat (r_num_new_xyz r) = M) by done.
  assert (HG : Z.to_nat (r_num_total_grids r) = G) by done.
  destruct (length_refine_scan far r) as [Hli Hld]. rewrite HM, HG in Hli, Hld.
  unfold outputs. fold r. cbn [fst snd].
  unfold torch_sqrt, idxs_after, dist2_after, mutate. cbn [data shape].
  rewrite !refine_is_spec.
  change (data (r_new_xyz_grid_idxs r)) with (data (init_idxs inp)).
  change (data (r_new_xyz_grid_dist2 r)) with (data (init_dist2 inp)).
  split; [done|]. split; [by rewrite length_map, length_written|]. split.
  - intros c g k Hc Hg Hk Hpos.
    destruct (refine_scan_slot far r c g k) as [Hi Hd];
      [by rewrite HM|by rewrite HG|done|]. rewrite HG in Hi, Hd.
    assert (slot G c g k < M * (G * 3))%nat by (unfold slot; nia).
    rewrite list_lookup_fmap.
    rewrite !lookup_written_lt
      by (rewrite ?length_init_dist2, ?Hli, ?Hld; lia).
    rewrite Hi, Hd. split; [done|].
    by destruct (three_nn far r c g !! k).
  - intros pos Hge Hlt.
    destruct (init_dist2_zero pos Hlt) as [Hz Hm].
    rewrite list_lookup_fmap.
    rewrite !lookup_written_ge by (rewrite ?Hli, ?Hld; lia).
    by rewrite Hz, Hm.
Qed.

End ForwardRefined.

(** ** C8: an empty slice leaves the three indices unset *)


(** ** C10: the distance of an unset slot *)

(** C10.  The squared-distance buffer the refinement receives holds
    zeros only and the index buffer holds -1 only, whatever the kernels.
    Hence every output slot whose distance the refinement leaves as it
    found it is returned with distance exactly [+0] after the square root,
    and every slot whose index it leaves as it found it is returned with
    index -1.  A slot the refinement does not store into is left as it was
    found. *)
Theorem unset_slot_distance_is_zero `{Dtype} `{Machine} `{ExtModule}
    (inp : Input) (fuel : nat) out log r :
  forward inp fuel [] = (Ret out, log) ->
  r ∈ refine_launches log ->
  data (r_new_xyz_grid_dist2 r)
  = replicate (length (data (fst (fst out)))) (S754_zero false)
  /\ data (r_new_xyz_grid_idxs r)
     = replicate (length (data (snd (fst out)))) (-1)
  /\ forall pos : nat,
       (pos < length (data (fst (fst out))))%nat ->
       (data (dist2_after r) !! pos = data (r_new_xyz_grid_dist2 r) !! pos ->
        data (fst (fst out)) !! pos = Some (S754_zero false))
       /\ (data (idxs_after r) !! pos = data (r_new_xyz_grid_idxs r) !! pos ->
           data (snd (fst out)) !! pos = Some (-1))
       /\ ((length (w_new_xyz_grid_dist2 (stack_query_three_nn_local_idxs r))
            <= pos)%nat ->
           data (dist2_after r) !! pos = data (r_new_xyz_grid_dist2 r) !! pos)
       /\ ((length (w_new_xyz_grid_idxs (stack_query_three_nn_local_idxs r))
            <= pos)%nat ->
           data (idxs_after r) !! pos = data (r_new_xyz_grid_idxs r) !! pos).
Proof.
  intros Hrun Hr.
  destruct (forward_ret inp fuel out log Hrun)
    as (a & gs0 & _ & -> & Hrl & _).
  rewrite Hrl in Hr. apply list_elem_of_singleton in Hr as ->.
  set (r := refine_args _ _ _ _ _).
  unfold outputs. fold r. cbn [fst snd].
  unfold torch_sqrt. cbn [data].
  change (data (r_new_xyz_grid_idxs r)) with (data (init_idxs inp)).
  change (data (r_new_xyz_grid_dist2 r)) with (data (init_dist2 inp)).
  assert (Hlen : length (data (dist2_after r)) = length (data (init_dist2 inp))).
  { unfold dist2_after, mutate. cbn [data]. by rewrite length_written. }
  assert (Hleni : length (data (idxs_after r)) = length (data (init_dist2 inp))).
  { unfold idxs_after, mutate. cbn [data].
    by rewrite length_written, <- length_init_dist2. }
  rewrite length_map, Hlen, Hleni.
  split; [|split].
  - unfold init_dist2, zeros. cbn [data]. by rewrite length_replicate.
  - unfold init_idxs, fill_, init_dist2, zeros. cbn [data].
    by rewrite !length_replicate.
  - intros pos Hpos. destruct (init_dist2_zero inp pos Hpos) as [Hz Hm].
    split; [|split; [|split]].
    + intros Hsame. by rewrite list_lookup_fmap, Hsame, Hz.
    + intros Hsame. by rewrite Hsame, Hm.
    + intros Hge. unfold dist2_after, mutate. cbn [data].
      by rewrite lookup_written_ge.
    + intros Hge. unfold idxs_after, mutate. cbn [data].
      by rewrite lookup_written_ge.
Qed.

(** ** The kernels of the specification meet the assumptions made above *)

Section SpecKernels.
Context `{Dtype}.
Variable far : float.
Variable inp : Input.

(** The scan of the specification does not look at the estimate or at the
    buffers it is given: what it stores is the same on every pass. *)
Lemma spec_scan_stable (n avg avg' : Z) :
  gather_scan (fresh_gather_args inp n avg)
  = gather_scan (fresh_gather_args inp n avg').
Proof. reflexivity. Qed.

Lemma spec_consumed (n avg : Z) :
  @consumed (spec_ext far) (fresh_gather_args inp n avg)
  = wrap_int32 (Z.of_nat (length (w_stack_neighbor_idxs
                                    (gather_scan (fresh_gather_args inp n 0))))).
Proof. reflexivity. Qed.

Lemma spec_consumed_stable (n avg avg' : Z) :
  @consumed (spec_ext far) (fresh_gather_args inp n avg)
  = @consumed (spec_ext far) (fresh_gather_args inp n avg')
  /\ @start_len_after (spec_ext far) (fresh_gather_args inp n avg)
     = @start_len_after (spec_ext far) (fresh_gather_args inp n avg').
Proof. split; reflexivity. Qed.

(** Every slot the refinement of the specification stores is either unset,
    or holds the index of a candidate of the center's slice together with
    the squared Euclidean distance from the grid sample to that source
    point. *)
Lemma elem_of_insert_by_dist (x y : float * Z) (l : list (float * Z)) :
  y ∈ insert_by_dist x l -> y = x \/ y ∈ l.
Proof.
  induction l as [|z l IH]; simpl.
  - intros ->%list_elem_of_singleton. by left.
  - destruct (SFltb (fst x) (fst z)).
    + intros [->|Hy]%elem_of_cons; [by left|by right].
    + intros [->|Hy]%elem_of_cons; [right; left|].
      destruct (IH Hy) as [->|Hl]; [by left|right; by right].
Qed.

Lemma elem_of_sorted (y : float * Z) (l : list (float * Z)) :
  y ∈ foldr insert_by_dist [] l -> y ∈ l.
Proof.
  induction l as [|x l IH]; simpl; [done|].
  intros [->|Hy]%elem_of_insert_by_dist; [left|right; auto].
Qed.

Lemma three_nn_entry (a : RefineArgs) (c g k : nat) (d : float) (i : Z) :
  three_nn far a c g !! k = Some (d, i) ->
  (d, i) = (far, -1)
  \/ i ∈ candidate_slice a c
     /\ d = dist2 (point (r_new_xyz_grid_centers a)
                         (c * Z.to_nat (r_num_total_grids a) + g))
                  (point (r_xyz a) (Z.to_nat i)).
Proof.
  unfold three_nn. intros Hk%list_elem_of_lookup_2.
  apply (subseteq_take 3), elem_of_app in Hk as [Hk|Hk].
  - right. apply elem_of_sorted, list_elem_of_fmap in Hk as (j & [= -> ->] & Hj).
    done.
  - left. by apply elem_of_replicate in Hk as [-> _].
Qed.

End SpecKernels.

(** With the refinement of the specification, a returned slot that is set
    holds the Euclidean distance from the grid sample to the source point
    whose index is returned with it. *)
Lemma returned_distance_is_euclidean `{Dtype} `{Machine} `{ExtModule}
    (far : float) (inp : Input) (fuel : nat) out log r (c g k : nat) :
  (forall a, stack_query_three_nn_local_idxs a = refine_scan far a) ->
  forward inp fuel [] = (Ret out, log) ->
  r ∈ refine_launches log ->
  (c < Z.to_nat (num_query_centers inp))%nat ->
  (g < Z.to_nat (num_total_grids inp))%nat ->
  (k < 3)%nat ->
  (slot (Z.to_nat (num_total_grids inp)) c g k
   < length (data (fst (fst out))))%nat ->
  exists (d2 : float) (i : Z),
    data (snd (fst out)) !! slot (Z.to_nat (num_total_grids inp)) c g k
    = Some i
    /\ data (fst (fst out)) !! slot (Z.to_nat (num_total_grids inp)) c g k
       = Some (fsqrt d2)
    /\ ((d2, i) = (far, -1)
        \/ i ∈ candidate_slice r c
           /\ d2 = dist2 (point (new_xyz_grid_centers inp)
                               (c * Z.to_nat (num_total_grids inp) + g))
                         (point (xyz inp) (Z.to_nat i))).
Proof.
  intros Hspec Hrun Hr Hc Hg Hk Hpos.
  destruct (forward_refined far Hspec inp fuel out log r Hrun Hr)
    as (_ & Hlen & Hslots & _).
  rewrite Hlen in Hpos. destruct (Hslots c g k Hc Hg Hk Hpos) as [Hi Hd].
  destruct (three_nn far r c g !! k) as [[d2 i]|] eqn:Hnn.
  - exists d2, i. split; [done|]. split; [done|].
    apply three_nn_entry in Hnn.
    destruct (forward_ret inp fuel out log Hrun) as (a & gs0 & _ & _ & Hrl & _).
    rewrite Hrl in Hr. apply list_elem_of_singleton in Hr. by subst r.
  - apply lookup_ge_None in Hnn. rewrite length_three_nn in Hnn. lia.
Qed.

(** * Further properties of [forward] *)

(** ** The extent of what is returned *)

Lemma to_nat_of_nat_list (s : list nat) : map Z.to_nat (map Z.of_nat s) = s.
Proof.
  induction s as [|d s IH]; [done|]. simpl. by rewrite Nat2Z.id, IH.
Qed.

Lemma numel_of_nat (s : list nat) :
  numel (map Z.of_nat s) = Z.of_nat (foldr Nat.mul 1%nat s).
Proof.
  induction s as [|d s IH]; [done|].
  unfold numel in *. simpl. rewrite IH. lia.
Qed.

(** X1.  Whatever the two kernels store, the distance tensor and the index
    tensor [forward] returns have the shape of [new_xyz_grid_centers] and
    as many elements as that shape has entries; the estimate comes back
    as a tensor without dimensions holding one number. *)
Theorem outputs_have_grid_extent `{Dtype} `{Machine} `{ExtModule}
    (inp : Input) (fuel : nat) out log :
  forward inp fuel [] = (Ret out, log) ->
  shape (fst (fst out)) = shape (new_xyz_grid_centers inp)
  /\ shape (snd (fst out)) = shape (new_xyz_grid_centers inp)
  /\ length (data (fst (fst out)))
     = foldr Nat.mul 1%nat (shape (new_xyz_grid_centers inp))
  /\ length (data (snd (fst out)))
     = foldr Nat.mul 1%nat (shape (new_xyz_grid_centers inp))
  /\ shape (snd out) = []
  /\ length (data (snd out)) = 1%nat.
Proof.
  intros Hrun.
  destruct (forward_ret inp fuel out log Hrun) as (a & gs0 & _ & -> & _).
  unfold outputs, torch_sqrt, dist2_after, idxs_after, mutate, refine_args.
  cbn [fst snd shape data r_new_xyz_grid_dist2 r_new_xyz_grid_idxs].
  unfold init_idxs, fill_, init_dist2, zeros. cbn [shape data].
  rewrite to_nat_of_nat_list, length_map, !length_written, !length_replicate.
  rewrite numel_of_nat, Nat2Z.id. done.
Qed.

(** ** Slots the refinement does not store into *)

(** X2.  For any refinement kernel: an output slot beyond what the kernel
    stored keeps what [forward] put there before the launch, index -1 and,
    after the square root, distance +0. *)
Theorem unwritten_slots_keep_initial `{Dtype} `{Machine} `{ExtModule}
    (inp : Input) (fuel : nat) out log r (pos : nat) :
  forward inp fuel [] = (Ret out, log) ->
  r ∈ refine_launches log ->
  (pos < length (data (fst (fst out))))%nat ->
  ((length (w_new_xyz_grid_idxs (stack_query_three_nn_local_idxs r)) <= pos)%nat ->
   data (snd (fst out)) !! pos = Some (-1))
  /\ ((length (w_new_xyz_grid_dist2 (stack_query_three_nn_local_idxs r)) <= pos)%nat ->
      data (fst (fst out)) !! pos = Some fzero).
Proof.
  intros Hrun Hr Hpos.
  destruct (forward_ret inp fuel out log Hrun) as (a & gs0 & _ & -> & Hrl & _).
  rewrite Hrl in Hr. apply list_elem_of_singleton in Hr as ->.
  set (r := refine_args _ _ _ _ _) in *.
  unfold outputs in *. fold r in Hpos |- *. cbn [fst snd] in *.
  unfold torch_sqrt, idxs_after, dist2_after, mutate in *. cbn [data] in *.
  change (data (r_new_xyz_grid_idxs r)) with (data (init_idxs inp)) in *.
  change (data (r_new_xyz_grid_dist2 r)) with (data (init_dist2 inp)) in *.
  rewrite length_map, length_written in Hpos.
  destruct (init_dist2_zero inp pos Hpos) as [Hz Hm].
  split; intros Hge.
  - by rewrite lookup_written_ge.
  - by rewrite list_lookup_fmap, lookup_written_ge, Hz.
Qed.

(** ** The candidates handed to the refinement, again *)

(** X3.  When [forward] returns (the counter being a count, not negative),
    the candidate buffer the refinement receives is the first [consumed]
    entries of what the accepted scan stored, in the order stored; only if
    the scan stored fewer entries than it counted is the rest made of the
    zeros of the allocation.  It does not depend on the capacity the pass
    had. *)
Theorem refiner_receives_stored_prefix `{Dtype} `{Machine} `{ExtModule}
    (inp : Input) (fuel : nat) out log g r :
  forward inp fuel [] = (Ret out, log) ->
  last (gather_launches log) = Some g ->
  r ∈ refine_launches log ->
  0 <= consumed g ->
  let ws := w_stack_neighbor_idxs (stack_query_local_neighbor_idxs g) in
  data (r_stack_neighbor_idxs r)
  = take (Z.to_nat (consumed g))
         (ws ++ replicate (Z.to_nat (consumed g) - length ws) 0)
  /\ ((Z.to_nat (consumed g) <= length ws)%nat ->
      data (r_stack_neighbor_idxs r) = take (Z.to_nat (consumed g)) ws)
  /\ r_start_len r = start_len_after g.
Proof.
  intros Hrun Hlast Hr Hc ws.
  destruct (forward_ret inp fuel out log Hrun)
    as (a & gs0 & Hgs & -> & Hrl & Hpos & Hn & Hfit & _).
  rewrite Hgs, last_snoc in Hlast. injection Hlast as <-.
  rewrite Hrl in Hr. apply list_elem_of_singleton in Hr as ->.
  assert (Hdata :
    data (r_stack_neighbor_idxs
            (refine_args inp (num_query_centers inp) (init_idxs inp)
               (init_dist2 inp) (pass_state inp (num_query_centers inp) a)))
    = take (Z.to_nat (consumed (fresh_gather_args inp (num_query_centers inp) a)))
           (ws ++ replicate
                    (Z.to_nat (consumed (fresh_gather_args inp
                                           (num_query_centers inp) a))
                     - length ws) 0)).
  { apply (accepted_candidates inp (num_query_centers inp) a). lia. }
  split; [exact Hdata|]. split; [|done].
  intros Hlen. rewrite Hdata.
  replace (_ - length ws)%nat with 0%nat by lia.
  simpl. by rewrite app_nil_r.
Qed.

(** ** How the estimate moves *)

(** X4.  In every call, whatever the kernels do: after a scan whose
    capacity is below [2^31] (so that the comparison in int32 is the
    comparison of the numbers), the estimate of the next scan is strictly
    larger, so is the capacity of its candidate buffer, and that estimate
    is at least 1. *)
Theorem retries_grow `{Dtype} `{Machine} `{ExtModule}
    (inp : Input) (fuel : nat) res log (i : nat) g g' :
  forward inp fuel [] = (res, log) ->
  gather_launches log !! i = Some g ->
  gather_launches log !! S i = Some g' ->
  capacity g < 2 ^ 31 ->
  g_avg_length_of_neighbor_idxs g < g_avg_length_of_neighbor_idxs g'
  /\ 1 <= g_avg_length_of_neighbor_idxs g'
  /\ capacity g < capacity g'.
Proof.
  intros Hrun Hi Hi' Hsmall.
  destruct (decide (shape (new_xyz inp) = [])) as [Hs|Hshape].
  { rewrite forward_run, Hs in Hrun. injection Hrun as <- <-. done. }
  destruct (forward_trace inp fuel res log Hrun Hshape) as (lres & Hp & _).
  pose proof (num_query_centers_nonneg inp) as Hn.
  destruct (passes_next inp _ _ _ _ i g g' Hp Hn Hi Hi')
    as (Hover & Hceil & Hcap').
  pose proof (passes_all_fresh inp _ _ _ _ Hp Hn) as Hfresh.
  rewrite Forall_forall in Hfresh.
  destruct (Hfresh g) as [Hg Hgpos]; [by eapply list_elem_of_lookup_2|].
  assert (Hcap : capacity g
                 = g_avg_length_of_neighbor_idxs g * num_query_centers inp).
  { rewrite Hg at 1. rewrite capacity_fresh; lia. }
  rewrite tensor_le_small in Hover by lia. apply Z.leb_gt in Hover.
  unfold is_ceil in Hceil. rewrite Hcap, Hcap' in *. nia.
Qed.



(** X5.  The estimate [forward] returns never exceeds the estimate the
    accepted pass ran with; when the consumed total is a count it lies
    between 0 and that total, and it is 0 exactly when nothing was
    consumed. *)
Theorem returned_estimate_bounds `{Dtype} `{Machine} `{ExtModule}
    (inp : Input) (fuel : nat) out log g :
  forward inp fuel [] = (Ret out, log) ->
  last (gather_launches log) = Some g ->
  final_estimate out <= g_avg_length_of_neighbor_idxs g
  /\ (0 <= consumed g ->
      0 <= final_estimate out <= consumed g
      /\ (final_estimate out = 0 <-> consumed g = 0)).
Proof.
  intros Hrun Hlast.
  destruct (forward_ret inp fuel out log Hrun)
    as (a & gs0 & Hgs & -> & _ & Hpos & Hn & Hfit & _).
  rewrite Hgs, last_snoc in Hlast. injection Hlast as <-.
  rewrite final_estimate_outputs, avg_fresh. cbn [pass_state
    ps_avg_length_of_neighbor_idxs].
  pose proof (next_estimate_is_ceil
    (consumed (fresh_gather_args inp (num_query_centers inp) a))
    (num_query_centers inp) Hn) as Hceil.
  unfold is_ceil in Hceil. split; [nia|]. intros Hc. split; [nia|]. nia.
Qed.

(** ** The initial estimate is only a hint *)

Lemma plain_pass_iff `{Machine} (n avg : Z) :
  0 <= n ->
  plain_pass n avg = true
  <-> pass_fits n avg = true /\ 0 <= avg * n < 2 ^ 31.
Proof.
  intros Hn. unfold plain_pass. rewrite andb_true_iff, Z.ltb_lt.
  rewrite pass_fits_iff by done. lia.
Qed.

Section Hint.
Context `{Dtype} `{Machine} `{ExtModule}.
Variable inp : Input.

(** What [forward] returns depends on the accepted pass through the cut
    candidate buffer, the slice records and the recomputed estimate only. *)
Lemma outputs_ext (n : Z) (p p' : PassState) :
  py_slice_to (data (ps_stack_neighbor_idxs p)) (item (ps_cumsum p))
  = py_slice_to (data (ps_stack_neighbor_idxs p')) (item (ps_cumsum p')) ->
  ps_start_len p = ps_start_len p' ->
  ps_avg_length_of_neighbor_idxs p = ps_avg_length_of_neighbor_idxs p' ->
  outputs inp n p = outputs inp n p'.
Proof.
  intros Hstack Hrec Havg. unfold outputs, refine_args.
  by rewrite Hstack, Hrec, Havg.
Qed.

(** Two passes that both fit, of a scan that stores the same on every
    pass, lead to the same result. *)
Lemma outputs_of_fitting_passes (n a a' : Z) :
  (forall avg avg',
     stack_query_local_neighbor_idxs (fresh_gather_args inp n avg)
     = stack_query_local_neighbor_idxs (fresh_gather_args inp n avg')) ->
  0 <= consumed (fresh_gather_args inp n a) <= a * n ->
  consumed (fresh_gather_args inp n a) <= a' * n ->
  outputs inp n (pass_state inp n a) = outputs inp n (pass_state inp n a').
Proof.
  intros Hsame Hfit Hfit'.
  assert (Hc : consumed (fresh_gather_args inp n a')
               = consumed (fresh_gather_args inp n a)).
  { unfold consumed, cumsum_after. by rewrite (Hsame a' a). }
  apply outputs_ext; cbn [pass_state ps_stack_neighbor_idxs ps_cumsum
                          ps_start_len ps_avg_length_of_neighbor_idxs].
  - fold (consumed (fresh_gather_args inp n a)).
    fold (consumed (fresh_gather_args inp n a')).
    rewrite !accepted_candidates by lia. by rewrite Hc, (Hsame a' a).
  - unfold start_len_after. by rewrite (Hsame a' a).
  - by rewrite Hc.
Qed.

(** The outcome of a call against a scan with a stable consumed total,
    when the capacities involved are plain. *)
Lemma forward_stable (fuel : nat) (c : Z) :
  let n := num_query_centers inp in
  let a0 := avg_length_of_neighbor_idxs inp in
  1 <= n ->
  (forall a, consumed (fresh_gather_args inp n a) = c) ->
  plain_pass n a0 = true ->
  plain_pass n (next_estimate c n) = true ->
  exists log,
    forward inp (S (S fuel)) []
    = (Ret (outputs inp n
              (pass_state inp n
                 (if c <=? a0 * n then a0 else next_estimate c n))), log)
    /\ length (gather_launches log) = if c <=? a0 * n then 1%nat else 2%nat.
Proof.
  intros n a0 Hn Hc Hp0 Hp1. subst n a0.
  apply plain_pass_iff in Hp0 as [Hf0 Hs0]; [|lia].
  apply plain_pass_iff in Hp1 as [Hf1 Hs1]; [|lia].
  rewrite forward_run.
  unfold num_query_centers in *.
  destruct (shape (new_xyz inp)) as [|d s]; [simpl in Hn; lia|].
  cbn [hd] in *.
  rewrite (gather_loop_stable inp fuel (Z.of_nat d) _ c) by (done || lia).
  rewrite Hf0, Hf1, tensor_le_small by done.
  destruct (c <=? avg_length_of_neighbor_idxs inp * Z.of_nat d);
    eexists; (split; [reflexivity|]);
    rewrite ?gather_launches_app; reflexivity.
Qed.

End Hint.

(** X6.  The initial estimate is only a hint.  With at least one query
    center and a gather scan that stores the same, whatever estimate and
    buffer it is launched with (its consumed total being a count), two
    calls that differ in nothing but their initial estimates return the
    same three tensors, provided the passes are plain: the buffers of
    both initial estimates and of the recomputed one can be allocated and
    their capacities are below [2^31]. *)
Theorem result_independent_of_initial_estimate
    `{Dtype} `{Machine} `{ExtModule}
    (inp : Input) (a1 a2 : Z) (fuel1 fuel2 : nat) :
  1 <= num_query_centers inp ->
  (forall avg avg',
     stack_query_local_neighbor_idxs
       (fresh_gather_args inp (num_query_centers inp) avg)
     = stack_query_local_neighbor_idxs
         (fresh_gather_args inp (num_query_centers inp) avg')) ->
  0 <= consumed (fresh_gather_args inp (num_query_centers inp) 0) ->
  plain_pass (num_query_centers inp) a1 = true ->
  plain_pass (num_query_centers inp) a2 = true ->
  plain_pass (num_query_centers inp)
    (next_estimate
       (consumed (fresh_gather_args inp (num_query_centers inp) 0))
       (num_query_centers inp)) = true ->
  (2 <= fuel1)%nat -> (2 <= fuel2)%nat ->
  exists out,
    fst (forward (with_estimate inp a1) fuel1 []) = Ret out
    /\ fst (forward (with_estimate inp a2) fuel2 []) = Ret out.
Proof.
  intros Hn Hsame Hcount Ha1 Ha2 Hnext Hf1 Hf2.
  set (n := num_query_centers inp) in *.
  set (c := consumed (fresh_gather_args inp n 0)) in *.
  assert (Hc : forall a, consumed (fresh_gather_args inp n a) = c).
  { intros a. unfold c, consumed, cumsum_after. by rewrite (Hsame a 0). }
  assert (Hrun : forall a fuel, plain_pass n a = true -> (2 <= fuel)%nat ->
    exists a', fst (forward (with_estimate inp a) fuel [])
               = Ret (outputs inp n (pass_state inp n a'))
               /\ c <= a' * n).
  { intros a [|[|fuel]] Ha Hfuel; [lia|lia|].
    destruct (forward_stable (with_estimate inp a) fuel c Hn Hc Ha Hnext)
      as (log & Hfw & _).
    rewrite Hfw. cbn [fst avg_length_of_neighbor_idxs with_estimate].
    change (num_query_centers (with_estimate inp a)) with n.
    eexists. split; [reflexivity|].
    destruct (Z.leb_spec c (a * n)); [done|].
    pose proof (next_estimate_is_ceil c n ltac:(lia)) as Hceil.
    unfold is_ceil in Hceil. lia. }
  destruct (Hrun a1 fuel1 Ha1 Hf1) as (b1 & Hr1 & Hb1).
  destruct (Hrun a2 fuel2 Ha2 Hf2) as (b2 & Hr2 & Hb2).
  exists (outputs inp n (pass_state inp n b1)). split; [done|].
  rewrite Hr2. f_equal. symmetry.
  apply outputs_of_fitting_passes; rewrite ?Hc; [done|lia|lia].
Qed.

(** X7.  What a poor hint costs.  With at least one query center, a scan
    whose consumed total [c] is the same on every pass, and plain passes
    (the buffers of the initial and of the recomputed estimate can be
    allocated and their capacities are below [2^31]): if the first buffer
    is large enough ([c <= estimate * centers]) the call makes one scan
    and returns an estimate no larger than the one given; otherwise it
    makes exactly two scans and returns an estimate strictly larger than
    the one given. *)
Theorem hint_decides_pass_count `{Dtype} `{Machine} `{ExtModule}
    (inp : Input) (c : Z) (fuel : nat) :
  1 <= num_query_centers inp ->
  (forall a,
     consumed (fresh_gather_args inp (num_query_centers inp) a) = c) ->
  plain_pass (num_query_centers inp) (avg_length_of_neighbor_idxs inp)
  = true ->
  plain_pass (num_query_centers inp)
             (next_estimate c (num_query_centers inp)) = true ->
  (2 <= fuel)%nat ->
  exists out log,
    forward inp fuel [] = (Ret out, log)
    /\ (c <= avg_length_of_neighbor_idxs inp * num_query_centers inp ->
        length (gather_launches log) = 1%nat
        /\ final_estimate out <= avg_length_of_neighbor_idxs inp)
    /\ (avg_length_of_neighbor_idxs inp * num_query_centers inp < c ->
        length (gather_launches log) = 2%nat
        /\ avg_length_of_neighbor_idxs inp < final_estimate out).
Proof.
  intros Hn Hc Hp0 Hp1 Hfuel. destruct fuel as [|[|fuel]]; [lia|lia|].
  destruct (forward_stable inp fuel c Hn Hc Hp0 Hp1) as (log & Hfw & Hlen).
  eexists _, log. split; [exact Hfw|].
  rewrite final_estimate_outputs. cbn [pass_state ps_avg_length_of_neighbor_idxs].
  rewrite Hc.
  pose proof (next_estimate_is_ceil c (num_query_centers inp) ltac:(lia))
    as Hceil.
  unfold is_ceil in Hceil.
  apply plain_pass_iff in Hp0 as [_ Hs0]; [|lia].
  destruct (Z.leb_spec c (avg_length_of_neighbor_idxs inp
                          * num_query_centers inp)).
  - split; [|lia]. intros _. split; [done|nia].
  - split; [lia|]. intros _. split; [done|nia].
Qed.

(** ** The loop has no bound of its own *)

Section Unbounded.
Context `{Dtype} `{Machine} `{ExtModule}.
Variable inp : Input.

(** Against a scan that reports more than the capacity it is given, by at
    most one candidate per center, the estimate grows by one on every
    round for as long as the capacities stay within [bound]. *)
Lemma gather_loop_overflowing (n bound : Z) (fuel : nat) :
  1 <= n ->
  bound < 2 ^ 31 -> bound <= max_numel -> n * 2 <= max_numel ->
  (forall a,
     0 <= a -> a * n <= bound ->
     a * n < consumed (fresh_gather_args inp n a) <= a * n + n) ->
  forall avg log,
    0 <= avg ->
    (avg + Z.of_nat fuel) * n <= bound + n ->
    exists gs,
      gather_loop inp fuel n avg log = (OutOfFuel, log ++ map LaunchGather gs)
      /\ length gs = fuel.
Proof.
  intros Hn Hb32 Hbmem Hrows Hover.
  induction fuel as [|fuel IH]; intros avg log Havg Hfuel.
  - exists []. simpl. by rewrite app_nil_r.
  - rewrite gather_loop_S. cbv zeta.
    assert (Hcap : avg * n <= bound) by nia.
    pose proof (Hover avg Havg Hcap) as Hc.
    assert (Hfits : pass_fits n avg = true) by (apply pass_fits_iff; nia).
    rewrite Hfits.
    destruct (Z.eqb_spec n 0); [lia|].
    rewrite tensor_le_small by nia.
    destruct (Z.leb_spec (consumed (fresh_gather_args inp n avg)) (avg * n));
      [lia|].
    pose proof (next_estimate_is_ceil
                  (consumed (fresh_gather_args inp n avg)) n ltac:(lia))
      as Hceil. unfold is_ceil in Hceil.
    assert (Hnext : next_estimate (consumed (fresh_gather_args inp n avg)) n
                    = avg + 1) by nia.
    rewrite Hnext.
    destruct (IH (avg + 1)
                 (log ++ [LaunchGather (fresh_gather_args inp n avg)]))
      as (gs & -> & Hlen); [lia|nia|].
    exists (fresh_gather_args inp n avg :: gs). split.
    + by rewrite <- app_assoc.
    + simpl. by rewrite Hlen.
Qed.

(** A run of the loop launches no more scans than it has rounds, and one
    at least when it returns. *)
Lemma gather_loop_launches (n : Z) (fuel : nat) :
  forall avg log res log',
    gather_loop inp fuel n avg log = (res, log') ->
    exists gs,
      log' = log ++ map LaunchGather gs
      /\ (length gs <= fuel)%nat
      /\ (forall p, res = Ret p -> gs <> []).
Proof.
  induction fuel as [|fuel IH]; intros avg log res log' Hrun.
  - simpl in Hrun. injection Hrun as <- <-. exists [].
    rewrite app_nil_r. by repeat split.
  - rewrite gather_loop_S in Hrun. cbv zeta in Hrun.
    destruct (pass_fits n avg).
    2:{ injection Hrun as <- <-. exists []. rewrite app_nil_r.
        repeat split; [simpl; lia|done]. }
    destruct (n =? 0).
    { injection Hrun as <- <-. exists [fresh_gather_args inp n avg].
      repeat split; [simpl; lia|done]. }
    destruct (tensor_le _ _).
    { injection Hrun as <- <-. exists [fresh_gather_args inp n avg].
      repeat split; [simpl; lia|done]. }
    apply IH in Hrun as (gs & -> & Hlen & _).
    exists (fresh_gather_args inp n avg :: gs).
    rewrite <- app_assoc. repeat split; [simpl; lia|done].
Qed.

End Unbounded.

(** X8.  The retry loop has no bound of its own.  Take a gather scan
    that, for every capacity up to [bound] (a number an int32 holds and
    the machine has room for), reports more than the capacity it is
    given, by at most one candidate per center.  A call with at least one
    query center and an initial estimate that is not negative then uses
    every round it is given, as long as the capacities stay within
    [bound]: it launches one scan in each round and never the
    refinement. *)
Theorem no_retry_cap `{Dtype} `{Machine} `{ExtModule}
    (inp : Input) (bound : Z) (fuel : nat) :
  1 <= num_query_centers inp ->
  bound < 2 ^ 31 -> bound <= max_numel ->
  num_query_centers inp * 2 <= max_numel ->
  (forall a,
     0 <= a -> a * num_query_centers inp <= bound ->
     a * num_query_centers inp
     < consumed (fresh_gather_args inp (num_query_centers inp) a)
     <= a * num_query_centers inp + num_query_centers inp) ->
  0 <= avg_length_of_neighbor_idxs inp ->
  (avg_length_of_neighbor_idxs inp + Z.of_nat fuel) * num_query_centers inp
  <= bound + num_query_centers inp ->
  exists log,
    forward inp fuel [] = (OutOfFuel, log)
    /\ length (gather_launches log) = fuel
    /\ refine_launches log = [].
Proof.
  intros Hn Hb32 Hbmem Hrows Hover Ha0 Hfuel.
  rewrite forward_run. unfold num_query_centers in *.
  destruct (shape (new_xyz inp)) as [|d s]; [simpl in Hn; lia|].
  cbn [hd] in *.
  destruct (gather_loop_overflowing inp (Z.of_nat d) bound fuel
              Hn Hb32 Hbmem Hrows Hover
              (avg_length_of_neighbor_idxs inp) [] Ha0 Hfuel)
    as (gs & -> & Hlen).
  eexists. split; [reflexivity|]. simpl.
  by rewrite gather_launches_map, refine_launches_map.
Qed.

(** X9.  The order of the launches.  A call launches gather scans only, at
    most one per round of the loop, and then, exactly when it returns, the
    refinement once, as the last launch and after at least one scan; a
    call that raises or is still looping has launched no refinement. *)
Theorem launch_order `{Dtype} `{Machine} `{ExtModule}
    (inp : Input) (fuel : nat) res log :
  forward inp fuel [] = (res, log) ->
  exists gs,
    (length gs <= fuel)%nat
    /\ match res with
       | Ret _ => gs <> [] /\ exists r, log = map LaunchGather gs ++ [LaunchRefine r]
       | _ => log = map LaunchGather gs
       end.
Proof.
  rewrite forward_run.
  destruct (shape (new_xyz inp)) as [|d s].
  { intros [= <- <-]. exists []. split; [simpl; lia|done]. }
  destruct (gather_loop inp fuel (Z.of_nat d) _ []) as [lres log1] eqn:Hloop.
  destruct (gather_loop_launches inp (Z.of_nat d) fuel _ _ _ _ Hloop)
    as (gs & -> & Hlen & Hne).
  simpl. intros Hrun. exists gs. split; [done|].
  destruct lres as [p|e|]; injection Hrun as <- <-; [|done..].
  split; [by eapply Hne|eauto].
Qed.

(** ** The properties on concrete calls *)

(** Evaluate the call in the goal, keeping its equation as [Hrun]. *)
Ltac evaluate_forward ext inp fuel Hrun :=
  let res := fresh "res" in
  let log := fresh "log" in
  let Hval := fresh "Hval" in
  destruct (@forward float32 big_machine ext inp fuel []) as [res log] eqn:Hrun;
  pose proof Hrun as Hval;
  vm_compute in Hval;
  injection Hval as <- <-.

(** Name the refinement launch of the evaluated call [Hrun]. *)
Ltac refined_launch Hrun r :=
  lazymatch type of Hrun with
  | _ = (_, ?log) =>
      lazymatch eval vm_compute in (refine_launches log) with
      | [?a] => pose (r := a)
      end
  end.

Lemma spec_module_refine :
  forall a, @stack_query_three_nn_local_idxs spec_module a
            = @refine_scan float32 far_sentinel a.
Proof. reflexivity. Qed.

(** The scan of the specification on [cluster_call] consumes 5 whatever
    the estimate, and writes the same slice records. *)
Lemma cluster_call_consumed (avg : Z) :
  @consumed spec_module (fresh_gather_args cluster_call 3 avg) = 5.
Proof. vm_compute. reflexivity. Qed.

Lemma cluster_call_slices (avg avg' : Z) :
  @start_len_after spec_module (fresh_gather_args cluster_call 3 avg)
  = @start_len_after spec_module (fresh_gather_args cluster_call 3 avg').
Proof. vm_compute. reflexivity. Qed.

(** What the counter holds after the counting scan and after the
    overflowing scan. *)
Lemma counting_consumed (c : Z) (inp : Input) (n a : Z) :
  @consumed (counting_module c) (fresh_gather_args inp n a) = wrap_int32 c.
Proof. reflexivity. Qed.

Lemma overflowing_consumed (inp : Input) (n a : Z) :
  0 <= a * n <= 2 ^ 31 - 2 ->
  @consumed overflowing_module (fresh_gather_args inp n a) = a * n + 1.
Proof.
  intros Hcap.
  change (@consumed overflowing_module (fresh_gather_args inp n a))
    with (wrap_int32 (Z.min (capacity (fresh_gather_args inp n a) + 1)
                            (2 ^ 31 - 1))).
  rewrite capacity_fresh by lia. rewrite Z.min_l by lia.
  apply wrap_int32_small. lia.
Qed.

(** C1 on [cluster_call]: initial estimate 1 overflows (5 > 3), estimate 2
    is accepted. *)
Lemma retry_loop_terminates_witness :
  1 <= num_query_centers cluster_call
  /\ (forall avg,
        @consumed spec_module
          (fresh_gather_args cluster_call (num_query_centers cluster_call) avg)
        = 5)
  /\ next_estimate 5 (num_query_centers cluster_call)
     * num_query_centers cluster_call < 2 ^ 31
  /\ (2 <= 2)%nat
  /\ exists out log,
       @forward float32 big_machine spec_module cluster_call 2 []
       = (Ret out, log)
       /\ (length (gather_launches log) <= 2)%nat.
Proof.
  assert (H1 : 1 <= num_query_centers cluster_call) by (vm_compute; discriminate).
  assert (H2 : forall avg,
             @consumed spec_module
               (fresh_gather_args cluster_call
                  (num_query_centers cluster_call) avg) = 5)
    by exact cluster_call_consumed.
  assert (H3 : next_estimate 5 (num_query_centers cluster_call)
               * num_query_centers cluster_call < 2 ^ 31)
    by (vm_compute; reflexivity).
  assert (H4 : (2 <= 2)%nat) by lia.
  destruct (@retry_loop_terminates float32 big_machine spec_module
              cluster_call 5 2 H1 H2 H3 H4)
    as (res & log & Hrun & _ & Hret & Hlen & _).
  refine (conj H1 (conj H2 (conj H3 (conj H4 _)))).
  destruct Hret as [out ->]; [vm_compute; reflexivity..|].
  exists out, log. exact (conj Hrun Hlen).
Defined.

(** C1, as stated, fails: the counter is an int32 and is compared with the
    capacity converted to int32.  On [cluster_call] (three query centers)
    against a scan that counts [2^31 - 1] candidates on every pass, the
    recomputed estimate is 715827883 and its capacity 2147483649, which
    the comparison reads as a negative number: the pass is refused and
    recomputes the same estimate, for as many rounds as the loop is
    given. *)
Lemma retry_loop_does_not_terminate :
  1 <= num_query_centers cluster_call
  /\ (forall avg,
        @consumed (counting_module (2 ^ 31 - 1))
          (fresh_gather_args cluster_call (num_query_centers cluster_call) avg)
        = 2 ^ 31 - 1)
  /\ (forall fuel : nat,
        exists log,
          @forward float32 big_machine (counting_module (2 ^ 31 - 1))
                   cluster_call fuel []
          = (OutOfFuel, log)
          /\ length (gather_launches log) = fuel).
Proof.
  split; [vm_compute; discriminate|]. split; [reflexivity|].
  intros [|fuel].
  - exists []. split; reflexivity.
  - eexists. split.
    + apply (@forward_refused_then_stuck float32 big_machine
               (counting_module (2 ^ 31 - 1)) cluster_call fuel
               3%nat [3%nat] 715827883);
        rewrite ?counting_consumed;
        first [reflexivity | vm_compute; discriminate
              | vm_compute; reflexivity].
    + rewrite gather_launches_cons, gather_launches_replicate.
      cbn [length]. by rewrite length_replicate.
Qed.

(** C2 on [cluster_call]: 5 consumed over 3 centers gives estimate 2, and
    2 * 3 >= 5. *)
Lemma estimate_is_ceiling_and_covers_witness :
  (new_estimate 5 3 = inr 2 /\ is_ceil 5 3 2)
  /\ exists out log g,
       @forward float32 big_machine spec_module cluster_call 2 []
       = (Ret out, log)
       /\ last (gather_launches log) = Some g
       /\ @consumed spec_module g = 5
       /\ final_estimate out = 2
       /\ @consumed spec_module g
          <= final_estimate out * num_query_centers cluster_call.
Proof.
  destruct (@estimate_is_ceiling_and_covers float32 big_machine spec_module
              cluster_call)
    as [Harith Hcall].
  split.
  - apply (Harith 5 3); lia.
  - evaluate_forward spec_module cluster_call 2%nat Hrun.
    destruct (Hcall _ _ _ Hrun) as (g & Hlast & _ & _ & Hcover).
    eexists _, _, g. split; [reflexivity|]. split; [exact Hlast|].
    vm_compute in Hlast. injection Hlast as <-.
    split; [vm_compute; reflexivity|]. split; [reflexivity|exact Hcover].
Defined.

(** C3 on [cluster_call]: capacities 3 and 6, the second pass accepted, and
    the refiner handed the 5 candidates the scan stored. *)
Lemma capacity_and_acceptance_witness :
  exists out log,
    @forward float32 big_machine spec_module cluster_call 2 [] = (Ret out, log)
    /\ map capacity (gather_launches log) = [3; 6]
    /\ (forall (i : nat) g,
          gather_launches log !! i = Some g ->
          @consumed spec_module g <= capacity g <-> i = 1%nat)
    /\ exists r,
         refine_launches log = [r]
         /\ data (r_stack_neighbor_idxs r) = [0; 1; 2; 4; 3].
Proof.
  evaluate_forward spec_module cluster_call 2%nat Hrun.
  destruct (@capacity_and_acceptance float32 big_machine spec_module
              cluster_call 2 _ _ Hrun)
    as (_ & Hiff & Hcut).
  eexists _, _. split; [reflexivity|]. split; [vm_compute; reflexivity|]. split.
  - intros i g Hi.
    destruct (Hiff ltac:(vm_compute; discriminate) i g Hi) as [_ Hsmall].
    rewrite Hsmall.
    + simpl. split; [intros [[= ->] _]; reflexivity|intros ->; eauto].
    + destruct i as [|[|[|i]]]; try discriminate Hi;
        injection Hi as <-; vm_compute; reflexivity.
  - destruct (Hcut _ eq_refl) as (g & r & Hlast & Hr & _ & Hdata).
    exists r. split; [exact Hr|].
    vm_compute in Hlast. injection Hlast as <-.
    destruct (Hdata ltac:(vm_compute; discriminate)) as [-> _].
    vm_compute. reflexivity.
Defined.

(** C3, as stated, fails: on [cluster_call] with initial estimate
    715827883 the first pass has capacity 2147483649 and counts 5
    candidates, which fit; the comparison, made in int32, refuses it and
    a second scan is launched. *)
Lemma fitting_pass_is_refused :
  exists g g' r out,
    @forward float32 big_machine spec_module
             (with_estimate cluster_call 715827883) 2 []
    = (Ret out, [LaunchGather g; LaunchGather g'; LaunchRefine r])
    /\ @consumed spec_module g = 5
    /\ capacity g = 2147483649
    /\ @consumed spec_module g <= capacity g.
Proof.
  eexists _, _, _, _. split.
  - apply (@forward_two_passes float32 big_machine spec_module
             (with_estimate cluster_call 715827883) 0 3%nat [3%nat] 2);
      cbn [avg_length_of_neighbor_idxs with_estimate];
      rewrite ?fresh_gather_args_with_estimate, ?cluster_call_consumed;
      first [reflexivity | vm_compute; discriminate
            | vm_compute; reflexivity].
  - cbn [avg_length_of_neighbor_idxs with_estimate].
    rewrite fresh_gather_args_with_estimate, cluster_call_consumed.
    rewrite capacity_fresh by (vm_compute; discriminate).
    split; [reflexivity|]. split; [reflexivity|]. vm_compute. discriminate.
Qed.

(** C4 on [cluster_call]: called again with the returned estimate 2, one
    scan is launched and accepted, with the same total and records. *)
Lemma converged_estimate_is_idempotent_witness :
  exists out log out' g' r',
    @forward float32 big_machine spec_module cluster_call 2 [] = (Ret out, log)
    /\ final_estimate out = 2
    /\ @forward float32 big_machine spec_module (with_estimate cluster_call 2)
                1 []
       = (Ret out', [LaunchGather g'; LaunchRefine r'])
    /\ @consumed spec_module g' = 5
    /\ final_estimate out' = 2.
Proof.
  evaluate_forward spec_module cluster_call 2%nat Hrun.
  destruct (@converged_estimate_is_idempotent float32 big_machine spec_module
              cluster_call 2 0 _ _ Hrun)
    as (g & out' & g' & r' & _ & Hagain & Hg' & _ & _ & _ & _ & Hest).
  - intros avg avg'. split; reflexivity.
  - intros avg. change (num_query_centers cluster_call) with 3.
    rewrite cluster_call_consumed. lia.
  - vm_compute. reflexivity.
  - eexists _, _, out', g', r'. split; [reflexivity|]. split; [reflexivity|].
    split; [exact Hagain|]. split; [|exact Hest].
    rewrite Hg'. vm_compute. reflexivity.
Defined.

(** C4, as stated, fails: on [cluster_call] against the scan that counts
    [2^31 - 1] candidates on every pass, initial estimate 3579139413 is
    accepted at once (its capacity, 10737418239, is [2^31 - 1] in int32)
    and 715827883 is returned; called again with 715827883 the same scan
    is refused on every pass, for as many rounds as the loop is given. *)
Lemma converged_estimate_is_refused :
  (forall avg avg',
     w_cumsum (@stack_query_local_neighbor_idxs (counting_module (2 ^ 31 - 1))
                 (fresh_gather_args cluster_call 3 avg))
     = w_cumsum (@stack_query_local_neighbor_idxs
                   (counting_module (2 ^ 31 - 1))
                   (fresh_gather_args cluster_call 3 avg'))
     /\ w_start_len (@stack_query_local_neighbor_idxs
                       (counting_module (2 ^ 31 - 1))
                       (fresh_gather_args cluster_call 3 avg))
        = w_start_len (@stack_query_local_neighbor_idxs
                         (counting_module (2 ^ 31 - 1))
                         (fresh_gather_args cluster_call 3 avg')))
  /\ (forall avg,
        0 <= @consumed (counting_module (2 ^ 31 - 1))
               (fresh_gather_args cluster_call 3 avg))
  /\ exists out g r,
       @forward float32 big_machine (counting_module (2 ^ 31 - 1))
                (with_estimate cluster_call 3579139413) 1 []
       = (Ret out, [LaunchGather g; LaunchRefine r])
       /\ final_estimate out = 715827883
       /\ forall fuel : nat,
            fst (@forward float32 big_machine (counting_module (2 ^ 31 - 1))
                          (with_estimate cluster_call (final_estimate out))
                          fuel [])
            = OutOfFuel.
Proof.
  split; [by intros avg avg'|].
  split; [intros avg; rewrite counting_consumed; vm_compute; discriminate|].
  eexists _, _, _. split.
  - apply (@forward_accepts_first float32 big_machine
             (counting_module (2 ^ 31 - 1))
             (with_estimate cluster_call 3579139413) 0 3%nat [3%nat]);
      cbn [avg_length_of_neighbor_idxs with_estimate];
      rewrite ?counting_consumed;
      first [reflexivity | vm_compute; discriminate
            | vm_compute; reflexivity].
  - cbn [avg_length_of_neighbor_idxs with_estimate].
    rewrite final_estimate_outputs.
    cbn [pass_state ps_avg_length_of_neighbor_idxs].
    rewrite counting_consumed.
    assert (Hest : next_estimate (wrap_int32 (2 ^ 31 - 1)) (Z.of_nat 3)
                   = 715827883) by (vm_compute; reflexivity).
    rewrite Hest. split; [reflexivity|]. intros fuel.
    rewrite (@forward_stuck float32 big_machine (counting_module (2 ^ 31 - 1))
               (with_estimate cluster_call 715827883) fuel 3%nat [3%nat]);
      cbn [avg_length_of_neighbor_idxs with_estimate];
      rewrite ?counting_consumed;
      first [reflexivity | vm_compute; discriminate
            | vm_compute; reflexivity].
Qed.


(** C6 on [cluster_call]: the retry pass, with estimate 2, is launched on
    six zeros, six zeros and a zero counter. *)
Lemma every_pass_starts_fresh_witness :
  exists res log g,
    @forward float32 big_machine spec_module cluster_call 2 [] = (res, log)
    /\ gather_launches log !! 1%nat = Some g
    /\ g_avg_length_of_neighbor_idxs g = 2
    /\ data (g_stack_neighbor_idxs g) = [0; 0; 0; 0; 0; 0]
    /\ data (g_start_len g) = [0; 0; 0; 0; 0; 0]
    /\ data (g_cumsum g) = [0].
Proof.
  evaluate_forward spec_module cluster_call 2%nat Hrun.
  eexists _, _, (fresh_gather_args cluster_call 3 2).
  split; [reflexivity|].
  assert (Hg : gather_launches
                 (snd (@forward float32 big_machine spec_module
                                cluster_call 2 []))
               !! 1%nat = Some (fresh_gather_args cluster_call 3 2))
    by (vm_compute; reflexivity).
  rewrite Hrun in Hg. split; [exact Hg|].
  destruct (@every_pass_starts_fresh float32 big_machine spec_module
              cluster_call 2 _ _
              (fresh_gather_args cluster_call 3 2) Hrun)
    as (_ & Hstack & Hslices & Hcount).
  - by eapply list_elem_of_lookup_2.
  - split; [reflexivity|]. split; [exact Hstack|]. split; [exact Hslices|].
    exact Hcount.
Defined.

(** C7, as stated, fails: [invalid_call] has batch-count arrays of
    different lengths, a negative radius, no grid sample and a zero initial
    estimate; the scan is launched all the same and the call returns its
    three tensors.  So does [cluster_call] with initial estimate 0, which
    returns what it returns with initial estimate 1. *)
Lemma invalid_call_is_not_rejected :
  length (data (xyz_batch_cnt invalid_call))
  <> length (data (new_xyz_batch_cnt invalid_call))
  /\ SFleb (max_neighbour_distance invalid_call) fzero = true
  /\ num_total_grids invalid_call <= 0
  /\ avg_length_of_neighbor_idxs invalid_call <= 0
  /\ (exists out g r,
        @forward float32 big_machine spec_module invalid_call 1 []
        = (Ret out, [LaunchGather g; LaunchRefine r]))
  /\ (exists out log,
        @forward float32 big_machine spec_module
                 (with_estimate cluster_call 0) 2 []
        = (Ret out, log)
        /\ fst (@forward float32 big_machine spec_module cluster_call 2 [])
           = Ret out).
Proof.
  split; [vm_compute; discriminate|]. split; [vm_compute; reflexivity|].
  split; [vm_compute; discriminate|]. split; [vm_compute; discriminate|].
  split.
  - evaluate_forward spec_module invalid_call 1%nat Hrun.
    eexists _, _, _. reflexivity.
  - evaluate_forward spec_module (with_estimate cluster_call 0) 2%nat Hrun.
    eexists _, _. split; [reflexivity|]. vm_compute. reflexivity.
Qed.

(** C7, as the code has it, on [invalid_call]: the scan is launched on the
    arguments as given; and on [cluster_call] with initial estimate -1:
    the call raises before any scan. *)
Lemma unchecked_call_reaches_scan_witness :
  (exists res log,
     @forward float32 big_machine spec_module invalid_call 1 [] = (res, log)
     /\ head log
        = Some (LaunchGather
                  (fresh_gather_args invalid_call
                     (num_query_centers invalid_call)
                     (avg_length_of_neighbor_idxs invalid_call))))
  /\ @forward float32 big_machine spec_module
              (with_estimate cluster_call (-1)) 1 []
     = (Raise RuntimeError, []).
Proof.
  split.
  - evaluate_forward spec_module invalid_call 1%nat Hrun.
    destruct (@unchecked_call_reaches_scan float32 big_machine spec_module
                invalid_call 0 _ _ Hrun)
      as (Hhead & _ & _).
    eexists _, _. split; [reflexivity|].
    apply Hhead; [discriminate|vm_compute; reflexivity].
  - destruct (@forward float32 big_machine spec_module
                       (with_estimate cluster_call (-1)) 1 [])
      as [res log] eqn:Hrun.
    destruct (@unchecked_call_reaches_scan float32 big_machine spec_module
                (with_estimate cluster_call (-1)) 0 res log Hrun)
      as (_ & Hneg & _).
    destruct Hneg as [-> ->];
      [vm_compute; discriminate|vm_compute; discriminate
      |vm_compute; reflexivity|].
    reflexivity.
Defined.

(** C9 on [empty_call]. *)
Lemma no_query_center_raises_witness :
  shape (new_xyz empty_call) = [0%nat; 3%nat]
  /\ @forward float32 big_machine spec_module empty_call 1 []
     = (Raise ZeroDivisionError,
        [LaunchGather (fresh_gather_args empty_call 0 1)]).
Proof.
  split; [reflexivity|].
  apply (@no_query_center_raises float32 big_machine spec_module
           empty_call 0 [3%nat]).
  reflexivity.
Defined.


(** C10 on [cluster_call], with a refinement that leaves the slots of a
    center without candidates as it finds them: the first slot of the
    third center comes back with index -1 and distance [+0]. *)
Lemma unset_slot_distance_is_zero_witness :
  exists out log r,
    @forward float32 big_machine zero_sentinel_module cluster_call 2 []
    = (Ret out, log)
    /\ r ∈ refine_launches log
    /\ data (r_new_xyz_grid_dist2 r) = replicate 9 (S754_zero false)
    /\ data (@dist2_after zero_sentinel_module r) !! slot 1 2 0 0
       = data (r_new_xyz_grid_dist2 r) !! slot 1 2 0 0
    /\ data (fst (fst out)) !! slot 1 2 0 0 = Some (S754_zero false)
    /\ data (snd (fst out)) !! slot 1 2 0 0 = Some (-1).
Proof.
  evaluate_forward zero_sentinel_module cluster_call 2%nat Hrun.
  refined_launch Hrun r.
  assert (Hr : r ∈ refine_launches
                     (snd (@forward float32 big_machine zero_sentinel_module
                                    cluster_call 2 [])))
    by (rewrite Hrun; apply list_elem_of_here).
  rewrite Hrun in Hr.
  destruct (@unset_slot_distance_is_zero float32 big_machine
              zero_sentinel_module cluster_call 2 _ _ r Hrun Hr)
    as (Hzero & _ & Hslots).
  assert (Hsame : data (@dist2_after zero_sentinel_module r) !! slot 1 2 0 0
                  = data (r_new_xyz_grid_dist2 r) !! slot 1 2 0 0)
    by (vm_compute; reflexivity).
  destruct (Hslots (slot 1 2 0 0) ltac:(vm_compute; lia)) as (Hd & Hi & _).
  eexists _, _, r. split; [reflexivity|]. split; [exact Hr|].
  split; [exact Hzero|]. split; [exact Hsame|].
  split; [exact (Hd Hsame)|]. apply Hi. vm_compute. reflexivity.
Defined.

(** ** The further properties on concrete calls *)

(** X1 on [cluster_call]: three centers, one sample each, three slots. *)
Lemma outputs_have_grid_extent_witness :
  exists out log,
    @forward float32 big_machine spec_module cluster_call 2 [] = (Ret out, log)
    /\ shape (fst (fst out)) = [3%nat; 1%nat; 3%nat]
    /\ shape (snd (fst out)) = [3%nat; 1%nat; 3%nat]
    /\ length (data (fst (fst out))) = 9%nat
    /\ length (data (snd (fst out))) = 9%nat.
Proof.
  evaluate_forward spec_module cluster_call 2%nat Hrun.
  destruct (@outputs_have_grid_extent float32 big_machine spec_module cluster_call 2 _ _ Hrun)
    as (H1 & H2 & H3 & H4 & _).
  eexists _, _. split; [reflexivity|]. exact (conj H1 (conj H2 (conj H3 H4))).
Defined.

(** X2 on [wide_grid_call]: the refinement stores 9 slots of 18; slot 9 is
    returned as it was initialised. *)
Lemma unwritten_slots_keep_initial_witness :
  exists out log r,
    @forward float32 big_machine spec_module wide_grid_call 2 [] = (Ret out, log)
    /\ r ∈ refine_launches log
    /\ length (data (fst (fst out))) = 18%nat
    /\ length (w_new_xyz_grid_idxs (@stack_query_three_nn_local_idxs spec_module r))
       = 9%nat
    /\ data (snd (fst out)) !! 9%nat = Some (-1)
    /\ data (fst (fst out)) !! 9%nat = Some fzero.
Proof.
  evaluate_forward spec_module wide_grid_call 2%nat Hrun.
  refined_launch Hrun r.
  assert (Hr : r ∈ refine_launches
                     (snd (@forward float32 big_machine spec_module wide_grid_call 2 [])))
    by (rewrite Hrun; apply list_elem_of_here).
  rewrite Hrun in Hr.
  destruct (@unwritten_slots_keep_initial float32 big_machine spec_module wide_grid_call 2
              _ _ r 9%nat Hrun Hr ltac:(vm_compute; lia)) as [Hi Hd].
  eexists _, _, r. split; [reflexivity|]. split; [exact Hr|].
  split; [vm_compute; reflexivity|]. split; [vm_compute; reflexivity|].
  split; [apply Hi|apply Hd]; vm_compute; lia.
Defined.

(** X3 on [cluster_call]: the accepted buffer has room for 6 indices, 5
    were stored and counted, and the refinement receives those 5. *)
Lemma refiner_receives_stored_prefix_witness :
  exists out log g r,
    @forward float32 big_machine spec_module cluster_call 2 [] = (Ret out, log)
    /\ last (gather_launches log) = Some g
    /\ r ∈ refine_launches log
    /\ capacity g = 6
    /\ @consumed spec_module g = 5
    /\ data (r_stack_neighbor_idxs r) = [0; 1; 2; 4; 3].
Proof.
  evaluate_forward spec_module cluster_call 2%nat Hrun.
  refined_launch Hrun r.
  assert (Hr : r ∈ refine_launches
                     (snd (@forward float32 big_machine spec_module cluster_call 2 [])))
    by (rewrite Hrun; apply list_elem_of_here).
  assert (Hg : last (gather_launches
                       (snd (@forward float32 big_machine spec_module cluster_call 2 [])))
               = Some (fresh_gather_args cluster_call 3 2))
    by (vm_compute; reflexivity).
  rewrite Hrun in Hr, Hg.
  destruct (@refiner_receives_stored_prefix float32 big_machine spec_module cluster_call 2
              _ _ _ r Hrun Hg Hr ltac:(vm_compute; discriminate))
    as (_ & Hprefix & _).
  eexists _, _, _, r. split; [reflexivity|]. split; [exact Hg|].
  split; [exact Hr|]. split; [vm_compute; reflexivity|].
  split; [vm_compute; reflexivity|].
  rewrite Hprefix; vm_compute; [reflexivity|lia].
Defined.

(** X4 on [cluster_call]: the estimate goes from 1 to 2, the capacity from
    3 to 6. *)
Lemma retries_grow_witness :
  exists res log g g',
    @forward float32 big_machine spec_module cluster_call 2 [] = (res, log)
    /\ gather_launches log !! 0%nat = Some g
    /\ gather_launches log !! 1%nat = Some g'
    /\ g_avg_length_of_neighbor_idxs g < g_avg_length_of_neighbor_idxs g'
    /\ 1 <= g_avg_length_of_neighbor_idxs g'
    /\ capacity g < capacity g'.
Proof.
  evaluate_forward spec_module cluster_call 2%nat Hrun.
  assert (H0 : gather_launches
                 (snd (@forward float32 big_machine spec_module cluster_call 2 []))
               !! 0%nat = Some (fresh_gather_args cluster_call 3 1))
    by (vm_compute; reflexivity).
  assert (H1 : gather_launches
                 (snd (@forward float32 big_machine spec_module cluster_call 2 []))
               !! 1%nat = Some (fresh_gather_args cluster_call 3 2))
    by (vm_compute; reflexivity).
  rewrite Hrun in H0, H1.
  eexists _, _, _, _. split; [reflexivity|]. split; [exact H0|].
  split; [exact H1|].
  exact (@retries_grow float32 big_machine spec_module cluster_call 2 _ _
           0%nat _ _ Hrun H0 H1 ltac:(vm_compute; reflexivity)).
Defined.

(** X5 on [cluster_call]: estimate 2 returned after a pass run with
    estimate 2, for 5 consumed. *)
Lemma returned_estimate_bounds_witness :
  exists out log g,
    @forward float32 big_machine spec_module cluster_call 2 [] = (Ret out, log)
    /\ last (gather_launches log) = Some g
    /\ final_estimate out <= g_avg_length_of_neighbor_idxs g
    /\ 0 <= final_estimate out <= @consumed spec_module g.
Proof.
  evaluate_forward spec_module cluster_call 2%nat Hrun.
  assert (Hg : last (gather_launches
                       (snd (@forward float32 big_machine spec_module cluster_call 2 [])))
               = Some (fresh_gather_args cluster_call 3 2))
    by (vm_compute; reflexivity).
  rewrite Hrun in Hg.
  destruct (@returned_estimate_bounds float32 big_machine spec_module cluster_call 2
              _ _ _ Hrun Hg) as [Hle Hcount].
  eexists _, _, _. split; [reflexivity|]. split; [exact Hg|].
  split; [exact Hle|]. apply Hcount. vm_compute. discriminate.
Defined.

(** X6 on [cluster_call]: the hints 1 (one retry) and 7 (none) give the
    same result. *)
Lemma result_independent_of_initial_estimate_witness :
  exists out,
    fst (@forward float32 big_machine spec_module
                  (with_estimate cluster_call 1) 2 [])
    = Ret out
    /\ fst (@forward float32 big_machine spec_module
                     (with_estimate cluster_call 7) 2 [])
       = Ret out.
Proof.
  apply (@result_independent_of_initial_estimate float32 big_machine
           spec_module cluster_call 1 7 2 2).
  - vm_compute. discriminate.
  - intros avg avg'. apply (@spec_scan_stable float32).
  - change (num_query_centers cluster_call) with 3.
    rewrite cluster_call_consumed. lia.
  - vm_compute. reflexivity.
  - vm_compute. reflexivity.
  - change (num_query_centers cluster_call) with 3.
    rewrite cluster_call_consumed. vm_compute. reflexivity.
  - lia.
  - lia.
Defined.

(** X7 on [cluster_call]: hint 1 is too small for 5 candidates over 3
    centers, so two scans are made and 2 is returned. *)
Lemma hint_decides_pass_count_witness :
  exists out log,
    @forward float32 big_machine spec_module cluster_call 2 [] = (Ret out, log)
    /\ length (gather_launches log) = 2%nat
    /\ avg_length_of_neighbor_idxs cluster_call < final_estimate out.
Proof.
  destruct (@hint_decides_pass_count float32 big_machine spec_module
              cluster_call 5 2)
    as (out & log & Hrun & _ & Htwo).
  - vm_compute. discriminate.
  - exact cluster_call_consumed.
  - vm_compute. reflexivity.
  - vm_compute. reflexivity.
  - lia.
  - exists out, log. split; [exact Hrun|]. apply Htwo. vm_compute. reflexivity.
Defined.

(** X8 on [cluster_call] against the overflowing scan, for capacities up
    to [2^31 - 2]: five rounds, five scans, no result. *)
Lemma no_retry_cap_witness :
  exists log,
    @forward float32 big_machine overflowing_module cluster_call 5 []
    = (OutOfFuel, log)
    /\ length (gather_launches log) = 5%nat
    /\ refine_launches log = [].
Proof.
  apply (@no_retry_cap float32 big_machine overflowing_module cluster_call
           (2 ^ 31 - 2) 5).
  - vm_compute. discriminate.
  - vm_compute. reflexivity.
  - vm_compute. discriminate.
  - vm_compute. discriminate.
  - intros a Ha Hcap. change (num_query_centers cluster_call) with 3 in *.
    rewrite overflowing_consumed; lia.
  - vm_compute. discriminate.
  - vm_compute. discriminate.
Defined.

(** X9 on [cluster_call]: two scans, then the refinement. *)
Lemma launch_order_witness :
  exists out log gs r,
    @forward float32 big_machine spec_module cluster_call 2 [] = (Ret out, log)
    /\ log = map LaunchGather gs ++ [LaunchRefine r]
    /\ (1 <= length gs <= 2)%nat.
Proof.
  evaluate_forward spec_module cluster_call 2%nat Hrun.
  destruct (@launch_order float32 big_machine spec_module cluster_call 2 _ _
              Hrun)
    as (gs & Hlen & Hne & r & Hlog).
  eexists _, _, gs, r. split; [reflexivity|]. split; [exact Hlog|].
  destruct gs; [done|simpl in *; lia].
Defined.
